(** * issue-summoner: comment classification, tag validation and the directory walk

    A shallow embedding of the annotation-scanning core of issue-summoner:
    - package [lexer]: the [Comment] tag record and its [Validate] method;
    - package [issue]: the comment-syntax registry ([CommentSymbols],
      [CommentPrefixes]), the line classifier ([SetLineTypeAndPrefix]) and
      the content extractor ([ExtractCommentContent]);
    - package [tag]: [Walk], its visitor callback and [validatePath].

    Go strings are modelled as sequences of runes (Unicode code points), the
    unit on which [strings.Fields] and [strings.TrimLeftFunc] work; on valid
    UTF-8 text the byte-wise [strings.HasPrefix], [strings.HasSuffix],
    [strings.Contains] and [==] agree with their rune-wise counterparts. *)

From Stdlib Require Import String Ascii NArith Bool Arith Lia List.
From Stdlib.Init Require Byte.
Import ListNotations.

(** ** Go strings and the functions of package [strings] that the code calls *)

Module gostr.

Definition rune := N.
Definition gostring := list rune.

(** A literal: the runes of an ASCII string. *)
Definition go (s : string) : gostring :=
  map N_of_ascii (list_ascii_of_string s).

(** [s == t] *)
Fixpoint streqb (s t : gostring) : bool :=
  match s, t with
  | [], [] => true
  | a :: s', b :: t' => N.eqb a b && streqb s' t'
  | _, _ => false
  end.

(** [unicode.IsSpace]: the Latin-1 spaces, then the White_Space table. *)
Definition IsSpace (r : rune) : bool :=
  if (r <=? 0xFF)%N
  then existsb (N.eqb r) [0x09; 0x0A; 0x0B; 0x0C; 0x0D; 0x20; 0x85; 0xA0]%N
  else existsb (N.eqb r) [0x1680; 0x2028; 0x2029; 0x202F; 0x205F; 0x3000]%N
       || ((0x2000 <=? r)%N && (r <=? 0x200A)%N).

(** [strings.HasPrefix]: [len(s) >= len(prefix) && s[:len(prefix)] == prefix] *)
Definition HasPrefix (s prefix : gostring) : bool :=
  (length prefix <=? length s) && streqb (firstn (length prefix) s) prefix.

(** [strings.HasSuffix]: [len(s) >= len(suffix) && s[len(s)-len(suffix):] == suffix] *)
Definition HasSuffix (s suffix : gostring) : bool :=
  (length suffix <=? length s)
  && streqb (skipn (length s - length suffix) s) suffix.

(** [strings.Contains]: [substr] occurs at some offset of [s]. *)
Fixpoint Contains (s substr : gostring) : bool :=
  HasPrefix s substr
  || match s with
     | [] => false
     | _ :: s' => Contains s' substr
     end.

(** [strings.TrimLeftFunc(s, unicode.IsSpace)] *)
Fixpoint TrimLeftSpace (s : gostring) : gostring :=
  match s with
  | [] => []
  | r :: s' => if IsSpace r then TrimLeftSpace s' else s
  end.

(** [strings.Fields]: the maximal runs of non-space runes, in order.  [cur]
    holds the runes of the field being read, last one first. *)
Fixpoint fieldsFrom (cur : gostring) (s : gostring) : list gostring :=
  match s with
  | [] => match cur with [] => [] | _ => [rev cur] end
  | r :: s' =>
      if IsSpace r
      then match cur with
           | [] => fieldsFrom [] s'
           | _ => rev cur :: fieldsFrom [] s'
           end
      else fieldsFrom (r :: cur) s'
  end.

Definition Fields (s : gostring) : list gostring := fieldsFrom [] s.

(** [strings.Join] *)
Fixpoint Join (elems : list gostring) (sep : gostring) : gostring :=
  match elems with
  | [] => []
  | [e] => e
  | e :: rest => e ++ sep ++ Join rest sep
  end.

End gostr.

Import gostr.

(** ** package lexer *)

Module lexer.

Record Comment := mkComment {
  Title : list Byte.byte;
  Description : list Byte.byte;
  TokenIndex : nat;
  Source : list Byte.byte;
  SourceFileName : gostring
}.

Definition Prepare (c : Comment) (fileName : gostring) (index : nat) : Comment :=
  {| Title := Title c; Description := Description c; TokenIndex := index;
     Source := Source c; SourceFileName := fileName |}.

(** [return len(c.Source) > 0] *)
Definition Validate (c : Comment) : bool := 0 <? length (Source c).

End lexer.

(** ** package issue: comment.go *)

Module issue.

Definition fileExtAsm := go ".asm".
Definition fileExtBash := go ".sh".
Definition fileExtCpp := go ".cpp".
Definition fileExtC := go ".c".
Definition fileExtCH := go ".h".
Definition fileExtCS := go ".cs".
Definition fileExtGo := go ".go".
Definition fileExtHaskell := go ".hs".
Definition fileExtHtml := go ".html".
Definition fileExtJai := go ".jai".
Definition fileExtJava := go ".java".
Definition fileExtJavaScript := go ".js".
Definition fileExtJsx := go ".jsx".
Definition fileExtKotlin := go ".kt".
Definition fileExtLisp := go ".lisp".
Definition fileExtLua := go ".lua".
Definition fileExtObjC := go ".m".
Definition fileExtOcaml := go ".ml".
Definition fileExtPhp := go ".php".
Definition fileExtPython := go ".py".
Definition fileExtRuby := go ".rb".
Definition fileExtRust := go ".rs".
Definition fileExtMarkdown := go ".md".
Definition fileExtR := go ".R".
Definition fileExtScala := go ".scala".
Definition fileExtSwift := go ".swift".
Definition fileExtTypeScript := go ".ts".
Definition fileExtTsx := go ".tsx".
Definition fileExtVim := go ".vim".
Definition fileExtZig := go ".zig".

Definition LINE_TYPE_SRC_CODE := go "src-code".
Definition LINE_TYPE_SINGLE := go "single".
Definition LINE_TYPE_MULTI_START := go "multi-start".
Definition LINE_TYPE_MULTI_END := go "multi-end".

Record Comment := mkComment {
  SingleLinePrefix : list gostring;
  MultiLineStartPrefix : list gostring;
  MultiLineEndPrefix : list gostring;
  CurrentPrefix : gostring;
  CurrentLineType : gostring
}.

(** The assignments [c.CurrentLineType = t; c.CurrentPrefix = p]. *)
Definition setLine (c : Comment) (t p : gostring) : Comment :=
  {| SingleLinePrefix := SingleLinePrefix c;
     MultiLineStartPrefix := MultiLineStartPrefix c;
     MultiLineEndPrefix := MultiLineEndPrefix c;
     CurrentPrefix := p;
     CurrentLineType := t |}.

(** The zero value of the struct, what a Go map yields for an absent key. *)
Definition zeroComment : Comment := mkComment [] [] [] [] [].

(** A registry entry: the literal gives the three prefix slices and leaves
    the two state fields at their zero value. *)
Definition syntax (single starts ends : list gostring) : Comment :=
  mkComment single starts ends [] [].

(** The Python delimiter of three double quotes, rune U+0022 three times. *)
Definition tripleQuote : gostring := [0x22; 0x22; 0x22]%N.

(** [map[string]Comment], read only; the literal's entries in order. *)
Definition CommentSymbols : list (gostring * Comment) :=
  [ (fileExtC, syntax [go "//"] [go "/*"] [go "*/"]);
    (fileExtPython,
      syntax [go "#"] [tripleQuote; go "'''"] [tripleQuote; go "'''"]);
    (fileExtMarkdown, syntax [] [go "<!--"] [go "-->"]);
    (go "default", syntax [go "#"] [go "#"] [go "#"]) ].

(** [m[k]] *)
Fixpoint index (m : list (gostring * Comment)) (k : gostring) : Comment :=
  match m with
  | [] => zeroComment
  | (k', v) :: m' => if streqb k k' then v else index m' k
  end.

Definition CommentPrefixes (ext : gostring) : Comment :=
  if existsb (streqb ext)
       [fileExtC; fileExtCpp; fileExtJava; fileExtJavaScript; fileExtJsx;
        fileExtTypeScript; fileExtTsx; fileExtCS; fileExtGo; fileExtPhp;
        fileExtSwift; fileExtKotlin; fileExtRust; fileExtObjC; fileExtScala]
  then index CommentSymbols fileExtC
  else if streqb ext fileExtPython then index CommentSymbols fileExtPython
  else if streqb ext fileExtMarkdown then index CommentSymbols fileExtMarkdown
  else index CommentSymbols (go "default").

(** The loop of [extractAfterPrefix]: [rest] are the fields from index [i]
    on, [start] is the loop's variable of that name. *)
Fixpoint afterPrefixLoop (fields rest : list gostring) (i start : nat)
    (annotation prefix : gostring) : gostring * bool :=
  match rest with
  | [] => (Join (skipn start fields) (go " "), false)
  | s :: rest' =>
      let start' := if streqb s prefix then i + 1 else start in
      if streqb s annotation
      then (Join (skipn (i + 1) fields) (go " "), true)
      else afterPrefixLoop fields rest' (i + 1) start' annotation prefix
  end.

Definition extractAfterPrefix (fields : list gostring)
    (annotation prefix : gostring) : gostring * bool :=
  match fields with
  | [] => ([], false)
  | _ => afterPrefixLoop fields fields 0 0 annotation prefix
  end.

Definition extractBeforeSuffix (fields : list gostring)
    (annotation prefix : gostring) : gostring * bool :=
  match fields with
  | [] => ([], false)
  | _ =>
      let fields' :=
        if streqb (last fields []) prefix
        then firstn (length fields - 1) fields
        else fields in
      extractAfterPrefix fields' annotation prefix
  end.

(** The first loop of [SetLineTypeAndPrefix]: the first single-line prefix
    the line starts with. *)
Fixpoint singleLoop (trimmedLine : gostring) (prefixes : list gostring)
    : option gostring :=
  match prefixes with
  | [] => None
  | s :: rest =>
      if HasPrefix trimmedLine s then Some s else singleLoop trimmedLine rest
  end.

(** The second loop, over the indices [i] of [MultiLineStartPrefix]; [starts]
    are the start prefixes from index [i] on.  [c.MultiLineEndPrefix[i]] is
    read on every iteration: when the end slice is too short the index is
    out of range and the program panics, [None] here. *)
Fixpoint multiLoop (c : Comment) (trimmedLine : gostring)
    (starts : list gostring) (i : nat) : option Comment :=
  match starts with
  | [] => Some (setLine c LINE_TYPE_SRC_CODE [])
  | st :: rest =>
      match nth_error (MultiLineEndPrefix c) i with
      | None => None
      | Some en =>
          let isMultiStart := HasPrefix trimmedLine st in
          let isMultiEnd := HasSuffix trimmedLine en in
          if isMultiStart then Some (setLine c LINE_TYPE_MULTI_START st)
          else if isMultiEnd then Some (setLine c LINE_TYPE_MULTI_END en)
          else multiLoop c trimmedLine rest (i + 1)
      end
  end.

(** [SetLineTypeAndPrefix] mutates its receiver: the state after the call is
    returned, [None] when the call panics. *)
Definition SetLineTypeAndPrefix (c : Comment) (line : gostring)
    : option Comment :=
  let trimmedLine := TrimLeftSpace line in
  if negb (streqb (CurrentPrefix c) [])
     && (HasPrefix trimmedLine (CurrentPrefix c)
         || HasSuffix trimmedLine (CurrentPrefix c))
  then Some c
  else
    match singleLoop trimmedLine (SingleLinePrefix c) with
    | Some s => Some (setLine c LINE_TYPE_SINGLE s)
    | None => multiLoop c trimmedLine (MultiLineStartPrefix c) 0
    end.

(** [ExtractCommentContent] returns the content, the found flag and the
    receiver's state after the call. *)
Definition ExtractCommentContent (c : Comment) (line annotation : gostring)
    : option (gostring * bool * Comment) :=
  let fields := Fields line in
  match SetLineTypeAndPrefix c (Join fields (go " ")) with
  | None => None
  | Some c' =>
      let (content, found) :=
        if streqb (CurrentLineType c') LINE_TYPE_MULTI_END
        then extractBeforeSuffix fields annotation (CurrentPrefix c')
        else extractAfterPrefix fields annotation (CurrentPrefix c') in
      Some (content, found, c')
  end.

End issue.

(** ** More of package [strings] (and [bytes], on valid UTF-8 text) *)

Module gosplit.

(** [genSplit] of the Go library, for a separator that is not empty: the
    pieces between the leftmost occurrences of [sep] that do not overlap,
    each followed by [sep] itself when [sepSave] is set.  [cur] holds the
    runes of the piece being read, last one first; [skip] counts the runes
    of a separator just found that are still to be passed. *)
Fixpoint genSplit (sep : gostring) (sepSave : bool) (cur : gostring)
    (skip : nat) (s : gostring) : list gostring :=
  match s with
  | [] => [rev cur]
  | r :: s' =>
      match skip with
      | S k => genSplit sep sepSave cur k s'
      | O =>
          if HasPrefix s sep
          then (rev cur ++ (if sepSave then sep else []))
               :: genSplit sep sepSave [] (length sep - 1) s'
          else genSplit sep sepSave (r :: cur) 0 s'
      end
  end.

(** [strings.Split(s, sep)], [sep] not empty *)
Definition Split (s sep : gostring) : list gostring :=
  genSplit sep false [] 0 s.

(** [strings.SplitAfter(s, sep)], [sep] not empty *)
Definition SplitAfter (s sep : gostring) : list gostring :=
  genSplit sep true [] 0 s.

(** [strings.TrimSuffix] *)
Definition TrimSuffix (s suffix : gostring) : gostring :=
  if HasSuffix s suffix then firstn (length s - length suffix) s else s.

End gosplit.

(** ** package tag: walk.go *)

Module tag.

(** Go's [error] values, as far as the walk tells them apart: the two
    sentinels of [path/filepath] and every other error.  [nil] is [None] of
    [option error]. *)
Inductive error :=
| SkipDir
| SkipAll
| Failure (msg : gostring).

Definition isSkipDir (e : error) : bool :=
  match e with SkipDir => true | _ => false end.

Definition isSkipAll (e : error) : bool :=
  match e with SkipAll => true | _ => false end.

(** Modelled from the spec: the [Tag] record, whose declaration is not among
    the sources: annotation, title, description, source file, line index. *)
Record Tag := mkTag {
  Annotation : gostring;
  Title : gostring;
  Description : gostring;
  SourceFile : gostring;
  LineIndex : nat
}.

(** Modelled from the spec: [GitIgnorePattern], whose declaration is not
    among the sources; a compiled pattern exposes [Match] on a path. *)
Record GitIgnorePattern := mkPattern {
  Match : gostring -> bool
}.

(** [os.FileInfo] and [*os.File], as far as the walk uses them. *)
Record FileInfo := mkFileInfo {
  infoName : gostring;
  infoIsDir : bool
}.

Record File := mkFile {
  fileName : gostring;
  Close : option error
}.

(** [fs.DirEntry] *)
Record DirEntry := mkDirEntry {
  Name : gostring;
  IsDir : bool;
  Info : FileInfo + error
}.

(** The file tree a walk runs over: an entry, and for a directory what
    [os.ReadDir] yields on it, the entries it could read and an error if
    the listing failed. *)
Unset Elimination Schemes.
Inductive tree :=
| Tree (d : DirEntry) (dirs : list tree) (readErr : option error).
Set Elimination Schemes.

Definition entry (t : tree) : DirEntry :=
  match t with Tree d _ _ => d end.

(** [WalkTagManager]: the scan of an open file, as a function of what it
    is called on. *)
Record WalkTagManager := mkTagManager {
  ScanForTags : gostring -> File -> FileInfo -> list Tag + error
}.

(** [WalkFileOperator]: [Open], and for [WalkDir] the file system it walks:
    [Lstat] gives what is found at a root, or fails. *)
Record WalkFileOperator := mkFileOperator {
  Open : gostring -> File + error;
  Lstat : gostring -> tree + error
}.

Record WalkParams := mkWalkParams {
  Root : gostring;
  TagManager : WalkTagManager;
  FileOperator : WalkFileOperator;
  IgnorePatterns : list GitIgnorePattern
}.

Fixpoint validatePath (path : gostring) (ignorePatterns : list GitIgnorePattern)
    : bool :=
  match ignorePatterns with
  | [] => true
  | v :: rest =>
      let matched := Match v path in
      if matched then false else validatePath path rest
  end.

(** What the callback of [Walk] acts on: the slice [tags] it captures, and
    the paths handed to [Open] so far, oldest first. *)
Record State := mkState {
  tags : list Tag;
  opened : list gostring
}.

Definition logOpen (s : State) (path : gostring) : State :=
  {| tags := tags s; opened := opened s ++ [path] |}.

Definition appendTags (s : State) (foundTags : list Tag) : State :=
  {| tags := tags s ++ foundTags; opened := opened s |}.

(** A call of the visitor: the state after it and the error it returns, or
    [None] when it panics. *)
Definition WalkDirFunc : Type :=
  gostring -> option DirEntry -> option error -> State ->
  option (State * option error).

(** The function literal that [Walk] passes to [WalkDir].  [d] is [None] for
    a nil entry, on which [d.IsDir()] panics. *)
Definition walkFn (arg : WalkParams) : WalkDirFunc :=
  fun path d wErr s =>
  let isValidPath := validatePath path (IgnorePatterns arg) in
  match d with
  | None => None
  | Some d =>
      if IsDir d then
        let isGitDir := Contains (Name d) (go ".git") in
        if isGitDir || negb isValidPath
        then Some (s, Some SkipDir)
        else Some (s, None)
      else if negb isValidPath then Some (s, None)
      else
        let s := logOpen s path in
        match Open (FileOperator arg) path with
        | inr err => Some (s, Some err)
        | inl file =>
            match Info d with
            | inr err => Some (s, Some err)
            | inl fileInfo =>
                match ScanForTags (TagManager arg) path file fileInfo with
                | inr err => Some (s, Some err)
                | inl foundTags =>
                    let s := appendTags s foundTags in
                    match Close file with
                    | Some closeErr => Some (s, Some closeErr)
                    | None => Some (s, wErr)
                    end
                end
            end
        end
  end.

(** The loop of [filepath.Clean] over the elements between the slashes of a
    path: an empty element and "." are dropped; ".." takes back the last
    element kept, unless there is none to take back, in which case it is
    dropped in a rooted path and kept otherwise.  [kept] holds the elements
    kept so far, last one first. *)
Fixpoint cleanElements (rooted : bool) (kept elems : list gostring)
    : list gostring :=
  match elems with
  | [] => rev kept
  | e :: rest =>
      if streqb e [] || streqb e (go ".") then cleanElements rooted kept rest
      else if streqb e (go "..") then
        match kept with
        | top :: below =>
            if streqb top (go "..")
            then cleanElements rooted (e :: kept) rest
            else cleanElements rooted below rest
        | [] =>
            if rooted then cleanElements rooted [] rest
            else cleanElements rooted [e] rest
        end
      else cleanElements rooted (e :: kept) rest
  end.

(** [filepath.Clean], with the slash as separator: the shortest equivalent
    path, "." for an empty one. *)
Definition Clean (path : gostring) : gostring :=
  if streqb path [] then go "."
  else
    let rooted := HasPrefix path (go "/") in
    let elems := cleanElements rooted [] (gosplit.Split path (go "/")) in
    if rooted then go "/" ++ Join elems (go "/")
    else match elems with
         | [] => go "."
         | _ => Join elems (go "/")
         end.

(** [filepath.Join(path, name)]: empty elements are ignored, the rest is
    joined by the separator and cleaned. *)
Definition pathJoin (path name : gostring) : gostring :=
  if streqb path [] then
    if streqb name [] then [] else Clean name
  else Clean (path ++ go "/" ++ name).

(** [err == SkipDir && d.IsDir()] turns the error into nil. *)
Definition skipped (d : DirEntry) (err : option error) : option error :=
  match err with
  | Some e => if isSkipDir e && IsDir d then None else Some e
  | None => None
  end.

(** Modelled from the spec: the directory-walking capability
    [walk(root, visitorCallback)]; the operator's [WalkDir] is not among the
    sources and is taken to be [filepath.WalkDir] of the Go library, whose
    [walkDir] this follows: the visitor is called on the entry, a directory
    is listed, a listing error is reported by a second call, and the entries
    read are walked in order. *)
Fixpoint walkDir (fn : WalkDirFunc) (path : gostring) (t : tree) (s : State)
    : option (State * option error) :=
  match t with
  | Tree d dirs readErr =>
      match fn path (Some d) None s with
      | None => None
      | Some (s, Some err) => Some (s, skipped d (Some err))
      | Some (s, None) =>
          if negb (IsDir d) then Some (s, None)
          else
            let walkEntries :=
              fix walkEntries (ds : list tree) (s : State) :=
                match ds with
                | [] => Some (s, None)
                | d1 :: rest =>
                    let path1 := pathJoin path (Name (entry d1)) in
                    match walkDir fn path1 d1 s with
                    | None => None
                    | Some (s, Some err) =>
                        if isSkipDir err then Some (s, None)
                        else Some (s, Some err)
                    | Some (s, None) => walkEntries rest s
                    end
                end in
            match readErr with
            | Some err =>
                match fn path (Some d) (Some err) s with
                | None => None
                | Some (s, Some err) => Some (s, skipped d (Some err))
                | Some (s, None) => walkEntries dirs s
                end
            | None => walkEntries dirs s
            end
      end
  end.

(** The loop of [walkDir] over the entries of the directory at [path]. *)
Fixpoint walkEntries (fn : WalkDirFunc) (path : gostring) (ds : list tree)
    (s : State) : option (State * option error) :=
  match ds with
  | [] => Some (s, None)
  | d1 :: rest =>
      match walkDir fn (pathJoin path (Name (entry d1))) d1 s with
      | None => None
      | Some (s, Some err) =>
          if isSkipDir err then Some (s, None) else Some (s, Some err)
      | Some (s, None) => walkEntries fn path rest s
      end
  end.

(** [filepath.WalkDir]: a root that cannot be stat'ed is reported to the
    visitor with a nil entry; the sentinels do not leave the walk. *)
Definition WalkDir (op : WalkFileOperator) (root : gostring) (fn : WalkDirFunc)
    (s : State) : option (State * option error) :=
  let r :=
    match Lstat op root with
    | inr err => fn root None (Some err) s
    | inl t => walkDir fn root t s
    end in
  match r with
  | None => None
  | Some (s, Some err) =>
      if isSkipDir err || isSkipAll err then Some (s, None)
      else Some (s, Some err)
  | Some (s, None) => Some (s, None)
  end.

(** [Walk] with the state its callback leaves behind. *)
Definition walkRun (arg : WalkParams) : option (State * option error) :=
  WalkDir (FileOperator arg) (Root arg) (walkFn arg)
    {| tags := []; opened := [] |}.

(** [Walk]: [return tags, err]; [None] when the walk panics. *)
Definition Walk (arg : WalkParams) : option (list Tag * option error) :=
  match walkRun arg with
  | None => None
  | Some (s, err) => Some (tags s, err)
  end.

End tag.

(** ** package scm *)

Module scm.

Import gosplit.

(** The value of a call that returns [(string, string, error)]: the two
    strings and the message of the error, [None] for a nil error. *)
Definition userRepo : Type := gostring * gostring * option gostring.

(** [None] when an index is out of range and the call panics. *)
Definition extractFromHTTPS (url : gostring) : option (gostring * gostring) :=
  match nth_error (SplitAfter url (go "https://")) 1 with
  | None => None
  | Some split =>
      let sep := Split split (go "/") in
      match nth_error sep 1, nth_error sep 2 with
      | Some userName, Some repoName =>
          Some (userName, TrimSuffix repoName (go ".git"))
      | _, _ => None
      end
  end.

Definition extractFromSSH (url : gostring) : option (gostring * gostring) :=
  match nth_error (SplitAfter url (go ":")) 1 with
  | None => None
  | Some split =>
      let sep := Split split (go "/") in
      match nth_error sep 0, nth_error sep 1 with
      | Some userName, Some repoName =>
          Some (userName, TrimSuffix repoName (go ".git"))
      | _, _ => None
      end
  end.

(** [ExtractUserRepoName]; [None] when the call panics. *)
Definition ExtractUserRepoName (out : gostring) : option userRepo :=
  if length out =? 0 then
    Some ([], [],
          Some (go "expected to receive the output from <git remote -v> but got empty byte slice"))
  else
    match nth_error (Split out [0x0A%N]) 0 with
    | None => None
    | Some line =>
        let fields := Fields line in
        if length fields <? 2 then
          match nth_error fields 0 with
          | None => None
          | Some f =>
              Some ([], [],
                    Some (go "expected to receive the origin and url but got "
                          ++ f))
          end
        else
          match nth_error fields 1 with
          | None => None
          | Some url =>
              if HasPrefix url (go "https") then
                match extractFromHTTPS url with
                | None => None
                | Some (userName, repoName) => Some (userName, repoName, None)
                end
              else if HasPrefix url (go "git") then
                match extractFromSSH url with
                | None => None
                | Some (userName, repoName) => Some (userName, repoName, None)
                end
              else
                Some ([], [],
                      Some (go "expected a https or ssh url but got " ++ url))
          end
    end.

(** The loop of [extractRepoName] over the lines of the output. *)
Fixpoint repoNameOf (lines : list gostring) : gostring :=
  match lines with
  | [] => []
  | line :: rest =>
      if Contains line (go "(push)") then
        let fields := Fields line in
        if 2 <=? length fields then
          let repoURL := nth 1 fields [] in
          let parts := Split repoURL (go "/") in
          if 1 <? length parts then
            let repo := TrimSuffix (nth (length parts - 1) parts [])
                          (go ".git") in
            repo
          else repoNameOf rest
        else repoNameOf rest
      else repoNameOf rest
  end.

Definition extractRepoName (origins : gostring) : gostring :=
  repoNameOf (Split origins [0x0A%N]).

End scm.

(** * Remote URLs *)

Module scmspec.

(** A host, user or repository name as it stands in a remote URL: no white
    space, no slash, no colon. *)
Definition plainName (n : gostring) : Prop :=
  Forall (fun r => IsSpace r = false /\ r <> 0x2F%N /\ r <> 0x3A%N) n.

(** The line of [git remote -v] for a remote, its URL and its direction. *)
Definition remoteLine (remote url direction : gostring) : gostring :=
  remote ++ [0x09%N] ++ url ++ go " " ++ direction.

Definition httpsURL (host user repo : gostring) : gostring :=
  go "https://" ++ host ++ go "/" ++ user ++ go "/" ++ repo ++ go ".git".

Definition sshURL (host user repo : gostring) : gostring :=
  go "git@" ++ host ++ go ":" ++ user ++ go "/" ++ repo ++ go ".git".

(** The output starts with the line [line]: it is that line alone, or
    that line, a newline and whatever follows. *)
Definition startsWithLine (out line : gostring) : Prop :=
  out = line \/ exists rest, out = line ++ 0x0A%N :: rest.

End scmspec.

(** * The walk, as the specification describes it *)

Module walkspec.

Import tag.

(** [kept pats path t q]: [q] is the path of a file entry of the tree [t]
    found at [path], and neither [q] nor the path of any directory entry
    above it, from [path] down, matches an ignore pattern of [pats]. *)
Inductive kept (pats : list GitIgnorePattern)
    : gostring -> tree -> gostring -> Prop :=
| kept_file path d dirs readErr :
    IsDir d = false ->
    validatePath path pats = true ->
    kept pats path (Tree d dirs readErr) path
| kept_below path d dirs readErr d1 q :
    IsDir d = true ->
    validatePath path pats = true ->
    In d1 dirs ->
    kept pats (pathJoin path (Name (entry d1))) d1 q ->
    kept pats path (Tree d dirs readErr) q.

(** The file entries a walk gets to scan when no step fails, in listing
    order, each with its path: the subtree of a directory that is pruned is
    left out, and so is a file that matches an ignore pattern. *)
Fixpoint scanOrder (pats : list GitIgnorePattern) (path : gostring) (t : tree)
    : list (gostring * DirEntry) :=
  match t with
  | Tree d dirs _ =>
      if IsDir d then
        if Contains (Name d) (go ".git") || negb (validatePath path pats)
        then []
        else flat_map
               (fun d1 => scanOrder pats (pathJoin path (Name (entry d1))) d1)
               dirs
      else if validatePath path pats then [(path, d)] else []
  end.

(** The per-file steps: open, file info, scan, close.  The tags the file
    adds to the aggregate, and the error of the first step that fails. *)
Definition fileStep (arg : WalkParams) (f : gostring * DirEntry)
    : list Tag * option error :=
  match Open (FileOperator arg) (fst f) with
  | inr err => ([], Some err)
  | inl file =>
      match Info (snd f) with
      | inr err => ([], Some err)
      | inl fileInfo =>
          match ScanForTags (TagManager arg) (fst f) file fileInfo with
          | inr err => ([], Some err)
          | inl foundTags => (foundTags, Close file)
          end
      end
  end.

(** The files scanned one after the other, up to the first failing step. *)
Fixpoint scanAll (arg : WalkParams) (files : list (gostring * DirEntry))
    (s : State) : State * option error :=
  match files with
  | [] => (s, None)
  | f :: rest =>
      let s := appendTags (logOpen s (fst f)) (fst (fileStep arg f)) in
      match snd (fileStep arg f) with
      | Some err => (s, Some err)
      | None => scanAll arg rest s
      end
  end.

(** [fileAt path t f]: [f] is a file entry of the tree [t] found at [path],
    paired with the path the walk hands to the callback for it. *)
Inductive fileAt : gostring -> tree -> gostring * DirEntry -> Prop :=
| fileAt_here path d dirs readErr :
    IsDir d = false ->
    fileAt path (Tree d dirs readErr) (path, d)
| fileAt_below path d dirs readErr d1 f :
    IsDir d = true ->
    In d1 dirs ->
    fileAt (pathJoin path (Name (entry d1))) d1 f ->
    fileAt path (Tree d dirs readErr) f.

(** The state after the per-file steps were run on [files], one after the
    other: each file was handed to [Open], and what each one found was
    appended to the tags. *)
Definition afterSteps (arg : WalkParams) (s : State)
    (files : list (gostring * DirEntry)) : State :=
  {| tags := tags s ++ flat_map (fun f => fst (fileStep arg f)) files;
     opened := opened s ++ map fst files |}.

End walkspec.

(** * Inputs used in the examples *)

Module examples.

Import issue.

(** A tag that has source content and no title. *)
Definition untitled : lexer.Comment :=
  {| lexer.Title := [];
     lexer.Description := [];
     lexer.TokenIndex := 0;
     lexer.Source := [Byte.x40; Byte.x54; Byte.x4f; Byte.x44; Byte.x4f];
     lexer.SourceFileName := go "main.go" |}.

(** The C-style syntax, as looked up for a [.c] file, with fresh state. *)
Definition cStyle : Comment := CommentPrefixes fileExtC.

Definition TODO : gostring := go "@TODO".

(** The state after a C-style line opened a block, and after one closed it. *)
Definition cStyleStart : Comment :=
  setLine cStyle LINE_TYPE_MULTI_START (go "/*").

Definition cStyleEnd : Comment :=
  setLine cStyleStart LINE_TYPE_MULTI_END (go "*/").

Import tag.

Definition permissionDenied : error := Failure (go "permission denied").

(** A file entry and a directory entry whose [Info] succeeds. *)
Definition fileEntry (name : gostring) : DirEntry :=
  {| Name := name; IsDir := false;
     Info := inl {| infoName := name; infoIsDir := false |} |}.

Definition dirEntry (name : gostring) : DirEntry :=
  {| Name := name; IsDir := true;
     Info := inl {| infoName := name; infoIsDir := true |} |}.

Definition file (name : gostring) : tree := Tree (fileEntry name) [] None.

Definition dir (name : gostring) (dirs : list tree) : tree :=
  Tree (dirEntry name) dirs None.

(** One tag per scanned file, titled "fix", at line 1. *)
Definition tagOf (path : gostring) : Tag :=
  {| Annotation := TODO; Title := go "fix"; Description := [];
     SourceFile := path; LineIndex := 1 |}.

Definition oneTagManager : WalkTagManager :=
  {| ScanForTags := fun path _ _ => inl [tagOf path] |}.

(** The tree [t] found at "repo"; every file opens and closes, except that
    opening [locked] is refused. *)
Definition repoOperator (t : tree) (locked : gostring) : WalkFileOperator :=
  {| Open := fun path =>
       if streqb path locked then inr permissionDenied
       else inl {| fileName := path; Close := None |};
     Lstat := fun root =>
       if streqb root (go "repo") then inl t
       else inr (Failure (go "no such file or directory")) |}.

Definition walkOf (t : tree) (locked : gostring)
    (patterns : list GitIgnorePattern) : WalkParams :=
  {| Root := go "repo";
     TagManager := oneTagManager;
     FileOperator := repoOperator t locked;
     IgnorePatterns := patterns |}.

(** repo/a.go scans; repo/b.go cannot be opened. *)
Definition repoLocked : tree := dir (go "repo") [file (go "a.go"); file (go "b.go")].

Definition walkLocked : WalkParams := walkOf repoLocked (go "repo/b.go") [].

(** repo/.github/release.go and repo/main.go, no ignore pattern. *)
Definition repoGithub : tree :=
  dir (go "repo")
    [dir (go ".github") [file (go "release.go")]; file (go "main.go")].

Definition walkGithub : WalkParams := walkOf repoGithub [] [].

(** repo/private cannot be listed; repo/main.go scans. *)
Definition privateDir : tree :=
  Tree (dirEntry (go "private")) [] (Some permissionDenied).

Definition repoUnlistable : tree :=
  dir (go "repo") [privateDir; file (go "main.go")].

Definition walkUnlistable : WalkParams := walkOf repoUnlistable [] [].

(** The pattern [node_modules/], as a matcher on paths. *)
Definition nodeModules : GitIgnorePattern :=
  {| Match := fun path => Contains path (go "node_modules") |}.

(** project/node_modules/index.js and project/app.js under repo. *)
Definition repoNode : tree :=
  dir (go "repo")
    [dir (go "project")
       [dir (go "node_modules") [file (go "index.js")]; file (go "app.js")]].

Definition walkNode : WalkParams := walkOf repoNode [] [nodeModules].

(** repo/sub/a.go, repo/sub/b.go, repo/y.go and repo/z.go: the scan of
    a.go answers with the sentinel that skips a directory, and z.go cannot
    be opened. *)
Definition skippingManager : WalkTagManager :=
  {| ScanForTags := fun path _ _ =>
       if streqb path (go "repo/sub/a.go") then inr SkipDir
       else inl [tagOf path] |}.

Definition repoSkipping : tree :=
  dir (go "repo")
    [dir (go "sub") [file (go "a.go"); file (go "b.go")];
     file (go "y.go"); file (go "z.go")].

Definition walkSkipping : WalkParams :=
  {| Root := go "repo";
     TagManager := skippingManager;
     FileOperator := repoOperator repoSkipping (go "repo/z.go");
     IgnorePatterns := [] |}.

End examples.

(** * The states of a file scan *)

Module classifierspec.

Import issue.

(** The states the classifier goes through while one file is scanned: the
    syntax looked up for the extension of the file, then the receiver after
    each call of [ExtractCommentContent], whatever the line and the
    annotation. *)
Inductive reachable (ext : gostring) : Comment -> Prop :=
| reachable_fresh : reachable ext (CommentPrefixes ext)
| reachable_line c line annotation content found c' :
    reachable ext c ->
    ExtractCommentContent c line annotation = Some (content, found, c') ->
    reachable ext c'.

(** A field as [strings.Fields] yields them: not empty, no space in it. *)
Definition isField (f : gostring) : Prop :=
  f <> [] /\ Forall (fun r => IsSpace r = false) f.

End classifierspec.

Import issue examples classifierspec gosplit scm scmspec.

(** * Properties *)

(** ** Go strings *)

Section GoStrings.

Lemma streqb_refl (s : gostring) : streqb s s = true.
Proof.
  induction s as [|a s IH]; simpl; [reflexivity|].
  now rewrite N.eqb_refl, IH.
Qed.

Lemma streqb_eq (s t : gostring) : streqb s t = true <-> s = t.
Proof.
  split.
  - revert t; induction s as [|a s IH]; intros [|b t]; simpl;
      try discriminate; [reflexivity|].
    intros H; apply andb_true_iff in H as [Hab Hst].
    apply N.eqb_eq in Hab; apply IH in Hst; congruence.
  - intros ->; apply streqb_refl.
Qed.

Lemma streqb_neq (s t : gostring) : streqb s t = false <-> s <> t.
Proof.
  destruct (streqb s t) eqn:E.
  - apply streqb_eq in E; split; [discriminate | contradiction].
  - split; [|reflexivity].
    intros _ Heq; apply streqb_eq in Heq; congruence.
Qed.

Lemma existsb_streqb_false (s : gostring) (l : list gostring) :
  ~ In s l -> existsb (streqb s) l = false.
Proof.
  intros Hn; destruct (existsb (streqb s) l) eqn:E; [|reflexivity].
  apply existsb_exists in E as (t & Hin & Heq).
  apply streqb_eq in Heq; subst; contradiction.
Qed.

End GoStrings.

(** ** package lexer *)

(** C1 (as the code has it): [Validate] returns true exactly when the source
    content of the tag is non-empty; the title is not consulted. *)
Theorem Validate_iff_source_nonempty (c : lexer.Comment) :
  lexer.Validate c = true <-> lexer.Source c <> [].
Proof.
  unfold lexer.Validate.
  destruct (lexer.Source c) as [|b src]; simpl.
  - split; [discriminate | intros H; now contradiction H].
  - split; [discriminate | reflexivity].
Qed.

(** C1 (as stated) fails: [Validate] is not equivalent to title and source
    both being non-empty, since [untitled] has an empty title and is valid. *)
Lemma Validate_ignores_title :
  ~ (forall c : lexer.Comment,
       lexer.Validate c = true <->
       (lexer.Title c <> [] /\ lexer.Source c <> [])).
Proof.
  intros H.
  destruct (H untitled) as [Hvalid _].
  destruct (Hvalid eq_refl) as [Htitle _].
  now apply Htitle.
Qed.

(** ** package issue *)

Section Registry.

(** C9: an extension that the switch of [CommentPrefixes] does not list
    (none of the C-style family, not Python, not Markdown) gets the default
    syntax, in which ["#"] is the single-line prefix, the multi-line start
    prefix and the multi-line end prefix. *)
Theorem CommentPrefixes_default (ext : gostring) :
  ~ In ext [fileExtC; fileExtCpp; fileExtJava; fileExtJavaScript; fileExtJsx;
            fileExtTypeScript; fileExtTsx; fileExtCS; fileExtGo; fileExtPhp;
            fileExtSwift; fileExtKotlin; fileExtRust; fileExtObjC;
            fileExtScala] ->
  ext <> fileExtPython ->
  ext <> fileExtMarkdown ->
  CommentPrefixes ext =
    {| SingleLinePrefix := [go "#"];
       MultiLineStartPrefix := [go "#"];
       MultiLineEndPrefix := [go "#"];
       CurrentPrefix := [];
       CurrentLineType := [] |}.
Proof.
  intros Hc Hpy Hmd.
  unfold CommentPrefixes.
  rewrite (existsb_streqb_false _ _ Hc).
  apply streqb_neq in Hpy; apply streqb_neq in Hmd.
  rewrite Hpy, Hmd.
  reflexivity.
Qed.

(** Ruby has an extension constant but no case in the switch. *)
Lemma CommentPrefixes_default_ruby :
  CommentPrefixes fileExtRuby =
    {| SingleLinePrefix := [go "#"];
       MultiLineStartPrefix := [go "#"];
       MultiLineEndPrefix := [go "#"];
       CurrentPrefix := [];
       CurrentLineType := [] |}.
Proof.
  apply (CommentPrefixes_default fileExtRuby).
  - intros Hin; simpl in Hin.
    repeat (destruct Hin as [Hin | Hin]; [discriminate Hin|]).
    exact Hin.
  - discriminate.
  - discriminate.
Defined.

End Registry.

(** ** The classifier and the extractor *)

Section Classifier.

(** A line that starts with ["/*"] does not start with ["//"]. *)
Lemma HasPrefix_block_not_line (s : gostring) :
  HasPrefix s (go "/*") = true -> HasPrefix s (go "//") = false.
Proof.
  destruct s as [|a [|b s]]; try discriminate.
  unfold HasPrefix; simpl.
  rewrite !andb_true_r.
  intros H; apply andb_true_iff in H as [_ Hb].
  apply N.eqb_eq in Hb; subst b.
  now rewrite andb_false_r.
Qed.

(** C8: with a non-empty active prefix, a line whose trimmed text starts
    with that prefix or ends with it leaves the classifier as it was: the
    call returns with [CurrentLineType] and [CurrentPrefix] (and the rest of
    the receiver) unchanged. *)
Theorem SetLineTypeAndPrefix_continuation (c : Comment) (line : gostring) :
  CurrentPrefix c <> [] ->
  HasPrefix (TrimLeftSpace line) (CurrentPrefix c) = true
  \/ HasSuffix (TrimLeftSpace line) (CurrentPrefix c) = true ->
  SetLineTypeAndPrefix c line = Some c.
Proof.
  intros Hne Hcont.
  unfold SetLineTypeAndPrefix.
  apply streqb_neq in Hne; rewrite Hne.
  apply orb_true_iff in Hcont; rewrite Hcont.
  reflexivity.
Qed.

(** Inside a C-style block, a box-comment line that opens with ["/*"] again. *)
Lemma SetLineTypeAndPrefix_continuation_box :
  SetLineTypeAndPrefix cStyleStart (go "  /* ---- box ----") = Some cStyleStart
  /\ SetLineTypeAndPrefix cStyleStart (go "closing the box /*")
     = Some cStyleStart.
Proof.
  split.
  - apply (SetLineTypeAndPrefix_continuation cStyleStart
             (go "  /* ---- box ----")).
    + discriminate.
    + left; reflexivity.
  - apply (SetLineTypeAndPrefix_continuation cStyleStart
             (go "closing the box /*")).
    + discriminate.
    + right; reflexivity.
Defined.

(** C5: with the C-style syntax and fresh state, a line that opens a block
    and closes it is classified MULTI_START, the start being tested first:
    the call leaves the line type MULTI_START and the active prefix ["/*"];
    and ["/* @TODO one-liner */"] yields the content ["one-liner */"], end
    delimiter included, with found = true, in that same state, which is not
    MULTI_END, so that nothing is stripped from the end. *)
Theorem block_on_one_line_is_MULTI_START (line : gostring) :
  HasPrefix (TrimLeftSpace line) (go "/*") = true ->
  HasSuffix (TrimLeftSpace line) (go "*/") = true ->
  (exists c',
     SetLineTypeAndPrefix cStyle line = Some c'
     /\ CurrentLineType c' = LINE_TYPE_MULTI_START
     /\ CurrentPrefix c' = go "/*"
     /\ c' = setLine cStyle LINE_TYPE_MULTI_START (go "/*"))
  /\ (exists c',
        ExtractCommentContent cStyle (go "/* @TODO one-liner */") TODO
        = Some (go "one-liner */", true, c')
        /\ CurrentLineType c' = LINE_TYPE_MULTI_START
        /\ CurrentLineType c' <> LINE_TYPE_MULTI_END
        /\ CurrentPrefix c' = go "/*"
        /\ c' = setLine cStyle LINE_TYPE_MULTI_START (go "/*")).
Proof.
  intros Hstart _.
  split; exists (setLine cStyle LINE_TYPE_MULTI_START (go "/*"));
    [|repeat split; discriminate].
  split; [|repeat split].
  unfold SetLineTypeAndPrefix.
  change (CurrentPrefix cStyle) with (@nil rune).
  change (SingleLinePrefix cStyle) with [go "//"].
  change (MultiLineStartPrefix cStyle) with [go "/*"].
  cbn [streqb negb andb singleLoop].
  rewrite (HasPrefix_block_not_line _ Hstart).
  cbn [multiLoop].
  change (nth_error (MultiLineEndPrefix cStyle) 0) with (Some (go "*/")).
  cbv beta iota zeta.
  now rewrite Hstart.
Qed.

Lemma block_on_one_line_example :
  (exists c',
     SetLineTypeAndPrefix cStyle (go "/* @TODO one-liner */") = Some c'
     /\ CurrentLineType c' = LINE_TYPE_MULTI_START
     /\ CurrentPrefix c' = go "/*"
     /\ c' = setLine cStyle LINE_TYPE_MULTI_START (go "/*"))
  /\ (exists c',
        ExtractCommentContent cStyle (go "/* @TODO one-liner */") TODO
        = Some (go "one-liner */", true, c')
        /\ CurrentLineType c' = LINE_TYPE_MULTI_START
        /\ CurrentLineType c' <> LINE_TYPE_MULTI_END
        /\ CurrentPrefix c' = go "/*"
        /\ c' = setLine cStyle LINE_TYPE_MULTI_START (go "/*")).
Proof.
  apply (block_on_one_line_is_MULTI_START (go "/* @TODO one-liner */"));
    reflexivity.
Defined.

(** C6: the two lines of a C-style block, fed in order from fresh state.
    The first is classified MULTI_START and yields ("refactor", true); the
    second is classified MULTI_END with active prefix ["*/"], its last field
    is that prefix and is dropped before the search, and it yields
    ("this function later", false). *)
Theorem two_line_block :
  ExtractCommentContent cStyle (go "/* @TODO refactor") TODO
    = Some (go "refactor", true, cStyleStart)
  /\ CurrentLineType cStyleStart = LINE_TYPE_MULTI_START
  /\ ExtractCommentContent cStyleStart (go "   this function later */") TODO
     = Some (go "this function later", false, cStyleEnd)
  /\ CurrentLineType cStyleEnd = LINE_TYPE_MULTI_END
  /\ CurrentPrefix cStyleEnd = go "*/"
  /\ last (Fields (go "   this function later */")) [] = CurrentPrefix cStyleEnd
  /\ extractBeforeSuffix (Fields (go "   this function later */")) TODO
       (go "*/")
     = extractAfterPrefix [go "this"; go "function"; go "later"] TODO
         (go "*/").
Proof.
  repeat split.
Qed.

End Classifier.

Section Extractor.

(** The loop reports found = true only at a field equal to the annotation. *)
Lemma afterPrefixLoop_found (fields rest : list gostring) (i start : nat)
    (annotation prefix content : gostring) :
  afterPrefixLoop fields rest i start annotation prefix = (content, true) ->
  In annotation rest.
Proof.
  revert i start.
  induction rest as [|s rest IH]; intros i start; simpl.
  - discriminate.
  - destruct (streqb s annotation) eqn:E.
    + apply streqb_eq in E; now left.
    + intros H; right; eapply IH; exact H.
Qed.

Lemma extractAfterPrefix_found (fields : list gostring)
    (annotation prefix content : gostring) :
  extractAfterPrefix fields annotation prefix = (content, true) ->
  In annotation fields.
Proof.
  destruct fields as [|f fields]; [discriminate|].
  apply afterPrefixLoop_found.
Qed.

Lemma In_firstn {A : Type} (n : nat) (l : list A) (x : A) :
  In x (firstn n l) -> In x l.
Proof.
  intros H.
  rewrite <- (firstn_skipn n l).
  apply in_or_app; now left.
Qed.

Lemma extractBeforeSuffix_found (fields : list gostring)
    (annotation prefix content : gostring) :
  extractBeforeSuffix fields annotation prefix = (content, true) ->
  In annotation fields.
Proof.
  destruct fields as [|f fields]; [discriminate|].
  unfold extractBeforeSuffix.
  destruct (streqb (last (f :: fields) []) prefix); intros H;
    apply extractAfterPrefix_found in H; [|exact H].
  eapply In_firstn; exact H.
Qed.

(** With an end prefix for every start prefix, the classifier returns. *)
Lemma multiLoop_returns (c : Comment) (trimmedLine : gostring)
    (starts : list gostring) (i : nat) :
  i + length starts <= length (MultiLineEndPrefix c) ->
  exists c', multiLoop c trimmedLine starts i = Some c'.
Proof.
  revert i.
  induction starts as [|st rest IH]; intros i Hlen; simpl in *.
  - eexists; reflexivity.
  - destruct (nth_error (MultiLineEndPrefix c) i) as [en|] eqn:E.
    + destruct (HasPrefix trimmedLine st); [eexists; reflexivity|].
      destruct (HasSuffix trimmedLine en); [eexists; reflexivity|].
      apply IH; lia.
    + apply nth_error_None in E; lia.
Qed.

Lemma SetLineTypeAndPrefix_returns (c : Comment) (line : gostring) :
  length (MultiLineStartPrefix c) <= length (MultiLineEndPrefix c) ->
  exists c', SetLineTypeAndPrefix c line = Some c'.
Proof.
  intros Hlen.
  unfold SetLineTypeAndPrefix.
  destruct (negb _ && _); [eexists; reflexivity|].
  destruct (singleLoop _ _); [eexists; reflexivity|].
  apply multiLoop_returns; simpl; exact Hlen.
Qed.

(** C10: when no whitespace-delimited field of the line is the annotation
    token, [ExtractCommentContent] returns found = false, whatever the state
    of the classifier (it returns as soon as every multi-line start prefix
    has its end prefix, as in every entry of the registry). *)
Theorem ExtractCommentContent_token_not_a_field (c : Comment)
    (line annotation : gostring) :
  length (MultiLineStartPrefix c) <= length (MultiLineEndPrefix c) ->
  ~ In annotation (Fields line) ->
  exists content c',
    ExtractCommentContent c line annotation = Some (content, false, c').
Proof.
  intros Hlen Hnot.
  unfold ExtractCommentContent.
  destruct (SetLineTypeAndPrefix_returns c (Join (Fields line) (go " ")) Hlen)
    as [c' ->].
  destruct (streqb (CurrentLineType c') LINE_TYPE_MULTI_END).
  - destruct (extractBeforeSuffix _ _ _) as [content [|]] eqn:E.
    + apply extractBeforeSuffix_found in E; contradiction.
    + now exists content, c'.
  - destruct (extractAfterPrefix _ _ _) as [content [|]] eqn:E.
    + apply extractAfterPrefix_found in E; contradiction.
    + now exists content, c'.
Qed.

(** The token fused to the prefix: ["//@TODO"] is one field, not ["@TODO"]. *)
Lemma ExtractCommentContent_fused_token :
  Fields (go "//@TODO fix bug") = [go "//@TODO"; go "fix"; go "bug"]
  /\ exists content c',
       ExtractCommentContent cStyle (go "//@TODO fix bug") TODO
         = Some (content, false, c').
Proof.
  split; [reflexivity|].
  apply (ExtractCommentContent_token_not_a_field cStyle
           (go "//@TODO fix bug") TODO).
  - simpl; lia.
  - intros Hin; simpl in Hin.
    repeat (destruct Hin as [Hin | Hin]; [discriminate Hin|]).
    exact Hin.
Defined.

End Extractor.

(** ** package tag: the walk *)

Import tag walkspec.

Section WalkDir.

Variable fn : WalkDirFunc.

(** Induction on a file tree, with the property at hand for every entry of
    a directory's listing. *)
Lemma tree_listing_ind (P : tree -> Prop) :
  (forall d dirs readErr, Forall P dirs -> P (Tree d dirs readErr)) ->
  forall t, P t.
Proof.
  intros Hstep.
  fix IH 1.
  intros [d dirs readErr].
  apply Hstep.
  induction dirs as [|d1 rest IHrest]; constructor; [apply IH | exact IHrest].
Qed.

(** [walkDir], with its loop named. *)
Lemma walkDir_unfold (path : gostring) (d : DirEntry) (dirs : list tree)
    (readErr : option error) (s : State) :
  walkDir fn path (Tree d dirs readErr) s =
  match fn path (Some d) None s with
  | None => None
  | Some (s, Some err) => Some (s, skipped d (Some err))
  | Some (s, None) =>
      if negb (IsDir d) then Some (s, None)
      else
        match readErr with
        | Some err =>
            match fn path (Some d) (Some err) s with
            | None => None
            | Some (s, Some err) => Some (s, skipped d (Some err))
            | Some (s, None) => walkEntries fn path dirs s
            end
        | None => walkEntries fn path dirs s
        end
  end.
Proof.
  assert (Hloop : forall ds s0,
    (fix loop (ds : list tree) (s : State) {struct ds} :=
       match ds with
       | [] => Some (s, None)
       | d1 :: rest =>
           match walkDir fn (pathJoin path (Name (entry d1))) d1 s with
           | None => None
           | Some (s, Some err) =>
               if isSkipDir err then Some (s, None) else Some (s, Some err)
           | Some (s, None) => loop rest s
           end
       end) ds s0 = walkEntries fn path ds s0).
  { induction ds as [|d1 rest IH]; intros s0; simpl; [reflexivity|].
    destruct (walkDir fn _ d1 s0) as [[s1 [err|]]|]; auto. }
  simpl.
  destruct (fn path (Some d) None s) as [[s1 [err|]]|]; try reflexivity.
  destruct (negb (IsDir d)); [reflexivity|].
  destruct readErr as [err|].
  - destruct (fn path (Some d) (Some err) s1) as [[s2 [err2|]]|];
      try reflexivity.
    apply Hloop.
  - apply Hloop.
Qed.

End WalkDir.

Section Callback.

Variable arg : WalkParams.

Let pats := IgnorePatterns arg.

(** On a directory entry the callback touches nothing and answers from the
    name and the path alone, whatever traversal error it is handed. *)
Lemma walkFn_dir (path : gostring) (d : DirEntry) (wErr : option error)
    (s : State) :
  IsDir d = true ->
  walkFn arg path (Some d) wErr s =
  Some (s, if Contains (Name d) (go ".git") || negb (validatePath path pats)
           then Some SkipDir else None).
Proof.
  intros Hdir; unfold walkFn; rewrite Hdir.
  now destruct (Contains _ _ || negb _).
Qed.

(** On a file entry that matches an ignore pattern it returns at once. *)
Lemma walkFn_file_ignored (path : gostring) (d : DirEntry)
    (wErr : option error) (s : State) :
  IsDir d = false ->
  validatePath path pats = false ->
  walkFn arg path (Some d) wErr s = Some (s, None).
Proof.
  intros Hdir Hval; unfold walkFn; fold pats; now rewrite Hdir, Hval.
Qed.

(** On a file entry that matches none it runs the per-file steps; the
    traversal error it was handed is returned when all of them succeed. *)
Lemma walkFn_file_kept (path : gostring) (d : DirEntry) (wErr : option error)
    (s : State) :
  IsDir d = false ->
  validatePath path pats = true ->
  walkFn arg path (Some d) wErr s =
  Some (appendTags (logOpen s path) (fst (fileStep arg (path, d))),
        match snd (fileStep arg (path, d)) with
        | Some err => Some err
        | None => wErr
        end).
Proof.
  intros Hdir Hval; unfold walkFn, fileStep; fold pats.
  rewrite Hdir, Hval; simpl.
  assert (Hnil : appendTags (logOpen s path) [] = logOpen s path).
  { unfold appendTags; simpl; now rewrite app_nil_r. }
  destruct (Open _ path) as [f|err]; simpl; [|now rewrite Hnil].
  destruct (Info d) as [fileInfo|err]; simpl; [|now rewrite Hnil].
  destruct (ScanForTags _ path f fileInfo) as [foundTags|err]; simpl;
    [|now rewrite Hnil].
  now destruct (Close f).
Qed.

(** A call of the callback opens at most the path it is called on, and only
    for a file entry that matches no ignore pattern. *)
Lemma walkFn_opened (path : gostring) (d : DirEntry) (wErr : option error)
    (s s' : State) (e : option error) (q : gostring) :
  walkFn arg path (Some d) wErr s = Some (s', e) ->
  In q (opened s') ->
  In q (opened s)
  \/ (q = path /\ IsDir d = false /\ validatePath path pats = true).
Proof.
  destruct (IsDir d) eqn:Hdir.
  - rewrite walkFn_dir by exact Hdir.
    intros [= <- _]; now left.
  - destruct (validatePath path pats) eqn:Hval.
    + rewrite walkFn_file_kept by assumption.
      intros [= <- _]; simpl.
      intros Hin; apply in_app_or in Hin as [Hin | [-> | []]]; auto.
    + rewrite walkFn_file_ignored by assumption.
      intros [= <- _]; now left.
Qed.

(** A directory entry whose path matches an ignore pattern is pruned: the
    walk of its subtree returns at once, whatever lies below, and leaves the
    state as it was. *)
Lemma walkDir_prunes_ignored_directory (path : gostring) (d : DirEntry)
    (dirs : list tree) (readErr : option error) (s : State) :
  IsDir d = true ->
  validatePath path pats = false ->
  walkDir (walkFn arg) path (Tree d dirs readErr) s = Some (s, None).
Proof.
  intros Hdir Hval.
  rewrite walkDir_unfold, walkFn_dir by exact Hdir.
  rewrite Hval, orb_true_r; simpl.
  now rewrite Hdir.
Qed.

(** The walk of a tree opens only files that are [kept]. *)
Lemma walkDir_opened (t : tree) :
  forall (path : gostring) (s s' : State) (e : option error) (q : gostring),
    walkDir (walkFn arg) path t s = Some (s', e) ->
    In q (opened s') ->
    In q (opened s) \/ kept pats path t q.
Proof.
  induction t as [d dirs readErr IH] using tree_listing_ind.
  intros path s s' e q.
  assert (Hloop : forall s0,
    walkEntries (walkFn arg) path dirs s0 = Some (s', e) ->
    In q (opened s') ->
    In q (opened s0)
    \/ exists d1, In d1 dirs
                  /\ kept pats (pathJoin path (Name (entry d1))) d1 q).
  { clear s. induction IH as [|d1 rest Hd1 _ IHrest]; intros s0; simpl.
    - intros [= <- _]; now left.
    - destruct (walkDir _ _ d1 s0) as [[s1 [err|]]|] eqn:E; try discriminate.
      + destruct (isSkipDir err); intros [= <- _] Hin;
          (destruct (Hd1 _ _ _ _ _ E Hin) as [Hold | Hk];
           [now left | right; exists d1; auto]).
      + intros Hrest Hin.
        destruct (IHrest _ Hrest Hin) as [Hold | (d2 & Hd2 & Hk)].
        * destruct (Hd1 _ _ _ _ _ E Hold) as [Hold' | Hk];
            [now left | right; exists d1; auto].
        * right; exists d2; auto. }
  rewrite walkDir_unfold.
  destruct (IsDir d) eqn:Hdir.
  - assert (Hgo : validatePath path pats = true ->
                  walkEntries (walkFn arg) path dirs s = Some (s', e) ->
                  In q (opened s') ->
                  In q (opened s) \/ kept pats path (Tree d dirs readErr) q).
    { intros Hval Hw Hin.
      destruct (Hloop _ Hw Hin) as [Hold | (d1 & Hd1 & Hk)];
        [now left | right; eapply kept_below; eauto]. }
    destruct readErr as [err|]; rewrite !walkFn_dir by exact Hdir;
      (destruct (Contains _ _ || negb (validatePath path pats)) eqn:Hprune;
       cbn [skipped isSkipDir andb negb];
       [ rewrite Hdir; intros [= <- _]; now left
       | apply orb_false_iff in Hprune as [_ Hval];
         apply negb_false_iff in Hval; now apply Hgo ]).
  - destruct (walkFn arg path (Some d) None s) as [[s1 e1]|] eqn:Hfn;
      [|discriminate].
    intros Hres Hin.
    assert (Hs : s' = s1).
    { destruct e1; simpl in Hres; now injection Hres. }
    subst s1.
    destruct (walkFn_opened _ _ _ _ _ _ _ Hfn Hin) as [Hold | (-> & _ & Hval)];
      [now left | right; now apply kept_file].
Qed.

End Callback.

Section Refinement.

Variable arg : WalkParams.

Let pats := IgnorePatterns arg.

Lemma scanAll_app (a b : list (gostring * DirEntry)) (s : State) :
  scanAll arg (a ++ b) s =
  match snd (scanAll arg a s) with
  | Some _ => scanAll arg a s
  | None => scanAll arg b (fst (scanAll arg a s))
  end.
Proof.
  revert s; induction a as [|f a IH]; intros s; simpl; [reflexivity|].
  destruct (snd (fileStep arg f)); [reflexivity | apply IH].
Qed.

(** Up to the first failing step the scan aggregates the tags of the files
    before it, and the failing file adds what its own steps produced. *)
Lemma scanAll_first_failure (before after : list (gostring * DirEntry))
    (f : gostring * DirEntry) (found : list Tag) (e : error) (s : State) :
  Forall (fun g => snd (fileStep arg g) = None) before ->
  fileStep arg f = (found, Some e) ->
  scanAll arg (before ++ f :: after) s =
  ({| tags := tags s ++ flat_map (fun g => fst (fileStep arg g)) before
              ++ found;
      opened := opened s ++ map fst before ++ [fst f] |}, Some e).
Proof.
  intros Hok Hfail; revert s.
  induction Hok as [|g before Hg _ IH]; intros s; simpl.
  - now rewrite Hfail.
  - rewrite Hg, IH; simpl.
    now rewrite <- !app_assoc.
Qed.

(** As long as the scan does not end in the sentinel that skips a directory,
    the walk of a tree is the scan of its files in [scanOrder]. *)
Lemma walkDir_scanAll (t : tree) :
  forall (path : gostring) (s : State),
    (forall e, snd (scanAll arg (scanOrder pats path t) s) = Some e ->
               isSkipDir e = false) ->
    walkDir (walkFn arg) path t s
    = Some (scanAll arg (scanOrder pats path t) s).
Proof.
  induction t as [d dirs readErr IH] using tree_listing_ind.
  intros path s.
  set (below := fun d1 : tree =>
                  scanOrder pats (pathJoin path (Name (entry d1))) d1).
  assert (Hloop : forall s0,
    (forall e, snd (scanAll arg (flat_map below dirs) s0) = Some e ->
               isSkipDir e = false) ->
    walkEntries (walkFn arg) path dirs s0
    = Some (scanAll arg (flat_map below dirs) s0)).
  { clear s. induction IH as [|d1 rest Hd1 _ IHrest]; intros s0; simpl;
      [reflexivity|].
    rewrite scanAll_app.
    fold (below d1).
    specialize (Hd1 (pathJoin path (Name (entry d1))) s0).
    fold (below d1) in Hd1.
    destruct (scanAll arg (below d1) s0) as [s1 [e1|]] eqn:E; simpl in *.
    - intros Hsent.
      rewrite Hd1 by exact Hsent.
      now rewrite (Hsent e1 eq_refl).
    - intros Hsent.
      rewrite Hd1 by discriminate.
      now apply IHrest. }
  rewrite walkDir_unfold.
  simpl scanOrder.
  destruct (IsDir d) eqn:Hdir.
  - destruct readErr as [err|]; rewrite !walkFn_dir by exact Hdir;
      fold pats;
      (destruct (Contains _ _ || negb (validatePath path pats));
       cbn [skipped isSkipDir andb negb];
       [ rewrite Hdir; reflexivity | apply Hloop ]).
  - destruct (validatePath path pats) eqn:Hval; intros _.
    + rewrite walkFn_file_kept by assumption.
      simpl.
      destruct (snd (fileStep arg (path, d))) as [e1|]; simpl;
        [|reflexivity].
      now rewrite Hdir, andb_false_r.
    + now rewrite walkFn_file_ignored by assumption.
Qed.

End Refinement.

(** C7: every path that a walk hands to [Open] is the path of a file entry
    that matches no ignore pattern and that lies below no directory entry
    whose path matches one: the subtree of a matching directory is pruned,
    and a matching file is never opened. *)
Theorem Walk_never_opens_ignored (arg : WalkParams) (s : State)
    (err : option error) (q : gostring) :
  walkRun arg = Some (s, err) ->
  In q (opened s) ->
  exists t, Lstat (FileOperator arg) (Root arg) = inl t
            /\ kept (IgnorePatterns arg) (Root arg) t q.
Proof.
  unfold walkRun, WalkDir.
  destruct (Lstat (FileOperator arg) (Root arg)) as [t|e0]; [|discriminate].
  destruct (walkDir (walkFn arg) (Root arg) t _) as [[s1 e1]|] eqn:E;
    [|discriminate].
  intros Hres Hin.
  assert (Hs : s = s1).
  { destruct e1 as [e1|]; [destruct (isSkipDir e1 || isSkipAll e1)|];
      now injection Hres. }
  subst s1.
  exists t; split; [reflexivity|].
  destruct (walkDir_opened arg t _ _ _ _ q E Hin) as [[] | Hk].
  exact Hk.
Qed.

(** With the pattern for node_modules, the walk opens app.js and never
    index.js below node_modules. *)
Lemma Walk_never_opens_node_modules :
  (exists err,
     walkRun walkNode
     = Some ({| tags := [tagOf (go "repo/project/app.js")];
                opened := [go "repo/project/app.js"] |}, err))
  /\ exists t, Lstat (FileOperator walkNode) (Root walkNode) = inl t
               /\ kept (IgnorePatterns walkNode) (Root walkNode) t
                    (go "repo/project/app.js").
Proof.
  split.
  - exists None; reflexivity.
  - apply (Walk_never_opens_ignored walkNode
             {| tags := [tagOf (go "repo/project/app.js")];
                opened := [go "repo/project/app.js"] |} None
             (go "repo/project/app.js")).
    + reflexivity.
    + simpl; left; reflexivity.
Defined.

(** When the steps succeed on every file before the first one that fails,
    and that one fails with an error other than the sentinels, the walk
    stops there. *)
Lemma Walk_stops_at_first_failure (arg : WalkParams) (t : tree)
    (before after : list (gostring * DirEntry)) (f : gostring * DirEntry)
    (found : list Tag) (e : error) :
  Lstat (FileOperator arg) (Root arg) = inl t ->
  scanOrder (IgnorePatterns arg) (Root arg) t = before ++ f :: after ->
  Forall (fun g => snd (fileStep arg g) = None) before ->
  fileStep arg f = (found, Some e) ->
  isSkipDir e = false ->
  isSkipAll e = false ->
  Walk arg
  = Some (flat_map (fun g => fst (fileStep arg g)) before ++ found, Some e).
Proof.
  intros Hroot Horder Hbefore Hfail Hdir Hall.
  unfold Walk, walkRun, WalkDir.
  rewrite Hroot, walkDir_scanAll;
    rewrite Horder, (scanAll_first_failure arg before after f found e _ Hbefore Hfail);
    simpl.
  - now rewrite Hdir, Hall.
  - now intros e' [= <-].
Qed.

Section Steps.

Variable arg : WalkParams.

Let pats := IgnorePatterns arg.

(** A step that succeeds, or answers with the sentinel that skips a
    directory: the walk goes on after it. *)
Let quiet (f : gostring * DirEntry) : Prop :=
  forall e, snd (fileStep arg f) = Some e -> isSkipDir e = true.

(** How a walk that ran the steps on [files] and returned [r] ended: all
    the steps were quiet and [r] is nil or the skip sentinel; or the last
    step failed with another error, which is [r], after quiet steps. *)
Let stopsAt (files : list (gostring * DirEntry)) (r : option error) : Prop :=
  (Forall quiet files /\ forall e, r = Some e -> isSkipDir e = true)
  \/ (exists before last e,
        files = before ++ [last] /\ Forall quiet before
        /\ snd (fileStep arg last) = Some e /\ isSkipDir e = false
        /\ r = Some e).

Lemma afterSteps_nil (s : State) : afterSteps arg s [] = s.
Proof. destruct s; unfold afterSteps; simpl; now rewrite !app_nil_r. Qed.

Lemma afterSteps_app (s : State) (a b : list (gostring * DirEntry)) :
  afterSteps arg (afterSteps arg s a) b = afterSteps arg s (a ++ b).
Proof.
  unfold afterSteps; simpl.
  now rewrite flat_map_app, map_app, !app_assoc.
Qed.

Lemma afterSteps_one (s : State) (f : gostring * DirEntry) :
  appendTags (logOpen s (fst f)) (fst (fileStep arg f))
  = afterSteps arg s [f].
Proof.
  unfold afterSteps, appendTags, logOpen; simpl; now rewrite app_nil_r.
Qed.

(** A step that fails with an error other than the skip sentinel is the
    last one, and its error is what the walk returned. *)
Lemma stopsAt_last (files before after : list (gostring * DirEntry))
    (f : gostring * DirEntry) (r : option error) (e : error) :
  stopsAt files r ->
  files = before ++ f :: after ->
  snd (fileStep arg f) = Some e ->
  isSkipDir e = false ->
  after = [] /\ r = Some e.
Proof.
  intros [[Hq _] | (b & l & e' & -> & Hq & Hl & Hns & ->)] Hsplit Hf Hne.
  - subst files; rewrite Forall_forall in Hq.
    specialize (Hq f (in_elt f before after) e Hf); congruence.
  - destruct after as [|a0 after].
    + apply app_inj_tail in Hsplit as [-> ->].
      split; [reflexivity | congruence].
    + destruct (@exists_last _ (a0 :: after)) as (init & x & Heq);
        [discriminate|].
      rewrite Heq in Hsplit.
      change (before ++ f :: init ++ [x])
        with (before ++ (f :: init) ++ [x]) in Hsplit.
      rewrite app_assoc in Hsplit.
      apply app_inj_tail in Hsplit as [-> _].
      rewrite Forall_forall in Hq.
      specialize (Hq f (in_elt f before init) e Hf); congruence.
Qed.

Lemma walkEntries_steps (path : gostring) (dirs : list tree) :
  Forall (fun t => forall path s,
            exists files r,
              walkDir (walkFn arg) path t s = Some (afterSteps arg s files, r)
              /\ Forall (fileAt path t) files
              /\ stopsAt files r) dirs ->
  forall s : State,
    exists files r,
      walkEntries (walkFn arg) path dirs s = Some (afterSteps arg s files, r)
      /\ Forall (fun f => exists d1,
                   In d1 dirs
                   /\ fileAt (pathJoin path (Name (entry d1))) d1 f) files
      /\ stopsAt files r.
Proof.
  induction 1 as [|d1 rest Hd1 _ IH]; intros s; simpl.
  - exists [], None; rewrite afterSteps_nil.
    split; [reflexivity|]; split; [constructor|].
    left; split; [constructor | discriminate].
  - destruct (Hd1 (pathJoin path (Name (entry d1))) s)
      as (files1 & r1 & -> & Hat1 & Hstop1).
    assert (Hat : Forall (fun f => exists d0,
                    (d1 = d0 \/ In d0 rest)
                    /\ fileAt (pathJoin path (Name (entry d0))) d0 f) files1).
    { eapply Forall_impl; [|exact Hat1].
      intros f Hf; exists d1; auto. }
    destruct r1 as [err|].
    + destruct (isSkipDir err) eqn:Eskip.
      * exists files1, None.
        split; [reflexivity|]; split; [exact Hat|].
        left; split; [|discriminate].
        destruct Hstop1 as [[Hq _] | (b & l & e & _ & _ & _ & Hns & [= ->])];
          [exact Hq | congruence].
      * exists files1, (Some err).
        split; [reflexivity|]; split; [exact Hat | exact Hstop1].
    + destruct (IH (afterSteps arg s files1))
        as (files2 & r2 & -> & Hat2 & Hstop2).
      exists (files1 ++ files2), r2; rewrite afterSteps_app.
      split; [reflexivity|]; split.
      * apply Forall_app; split; [exact Hat|].
        eapply Forall_impl; [|exact Hat2].
        intros f (d0 & Hin & Hf); exists d0; auto.
      * assert (Hq1 : Forall quiet files1).
        { destruct Hstop1 as [[Hq _] | (b & l & e & _ & _ & _ & _ & Hr)];
            [exact Hq | discriminate]. }
        destruct Hstop2 as [[Hq2 Hr2] | (b & l & e & -> & Hq2 & Hl & Hns & ->)].
        -- left; split; [now apply Forall_app | exact Hr2].
        -- right; exists (files1 ++ b), l, e.
           rewrite app_assoc.
           repeat split; try assumption.
           now apply Forall_app.
Qed.

(** The walk of a tree runs the per-file steps on some of its file entries,
    one after the other, and ends as [stopsAt] says. *)
Lemma walkDir_steps (t : tree) :
  forall (path : gostring) (s : State),
    exists files r,
      walkDir (walkFn arg) path t s = Some (afterSteps arg s files, r)
      /\ Forall (fileAt path t) files
      /\ stopsAt files r.
Proof.
  induction t as [d dirs readErr IH] using tree_listing_ind.
  intros path s.
  assert (Hnone : exists files r,
            Some (s, @None error) = Some (afterSteps arg s files, r)
            /\ Forall (fileAt path (Tree d dirs readErr)) files
            /\ stopsAt files r).
  { exists [], None; rewrite afterSteps_nil.
    split; [reflexivity|]; split; [constructor|].
    left; split; [constructor | discriminate]. }
  rewrite walkDir_unfold.
  destruct (IsDir d) eqn:Hdir.
  - assert (Hgo : exists files r,
              walkEntries (walkFn arg) path dirs s
              = Some (afterSteps arg s files, r)
              /\ Forall (fileAt path (Tree d dirs readErr)) files
              /\ stopsAt files r).
    { destruct (walkEntries_steps path dirs IH s)
        as (files & r & Heq & Hat & Hstop).
      exists files, r; split; [exact Heq|]; split; [|exact Hstop].
      eapply Forall_impl; [|exact Hat].
      intros f (d1 & Hin & Hf); eapply fileAt_below; eauto. }
    destruct readErr as [err|]; rewrite !walkFn_dir by exact Hdir;
      (destruct (Contains _ _ || negb (validatePath path (IgnorePatterns arg)));
       cbn [skipped isSkipDir andb negb];
       [ rewrite Hdir; exact Hnone | exact Hgo ]).
  - destruct (validatePath path pats) eqn:Hval.
    + rewrite walkFn_file_kept by assumption.
      pose proof (afterSteps_one s (path, d)) as Hone.
      cbn [fst] in Hone; rewrite Hone; clear Hone.
      assert (Hat : Forall (fileAt path (Tree d dirs readErr)) [(path, d)]).
      { constructor; [now apply fileAt_here | constructor]. }
      destruct (snd (fileStep arg (path, d))) as [e|] eqn:Estep.
      * cbn [skipped]; rewrite Hdir, andb_false_r.
        exists [(path, d)], (Some e).
        split; [reflexivity|]; split; [exact Hat|].
        destruct (isSkipDir e) eqn:Eskip.
        -- left; split; [|now intros e' [= <-]].
           constructor; [|constructor].
           unfold quiet; rewrite Estep; now intros e' [= <-].
        -- right; exists [], (path, d), e.
           repeat split; [constructor | exact Estep | exact Eskip].
      * cbn [negb].
        exists [(path, d)], None.
        split; [reflexivity|]; split; [exact Hat|].
        left; split; [|discriminate].
        constructor; [|constructor].
        unfold quiet; rewrite Estep; discriminate.
    + rewrite walkFn_file_ignored by assumption.
      cbn [negb]; exact Hnone.
Qed.

End Steps.

(** C2 (as the code has it): a walk runs the per-file steps (open, file
    info, scan, close) on file entries of the tree, one after the other, and
    [Walk] returns the tags aggregated by all the steps it ran.  When one of
    these steps fails with an error other than the walk's own sentinels, it
    is the last step of the walk and [Walk] returns that error, together
    with the tags aggregated so far: those of the files scanned before, and
    those the failing file itself added when only its close failed. *)
Theorem Walk_returns_error_with_partial_tags (arg : WalkParams) (t : tree) :
  Lstat (FileOperator arg) (Root arg) = inl t ->
  exists files err,
    walkRun arg
    = Some ({| tags := flat_map (fun f => fst (fileStep arg f)) files;
               opened := map fst files |}, err)
    /\ Walk arg = Some (flat_map (fun f => fst (fileStep arg f)) files, err)
    /\ Forall (fileAt (Root arg) t) files
    /\ forall before f after e,
         files = before ++ f :: after ->
         snd (fileStep arg f) = Some e ->
         isSkipDir e = false ->
         isSkipAll e = false ->
         after = []
         /\ err = Some e
         /\ Walk arg
            = Some (flat_map (fun g => fst (fileStep arg g)) before
                    ++ fst (fileStep arg f), Some e).
Proof.
  intros Hroot.
  destruct (walkDir_steps arg t (Root arg) {| tags := []; opened := [] |})
    as (files & r & Hrun & Hat & Hstop).
  set (err := match r with
              | Some e => if isSkipDir e || isSkipAll e then None else Some e
              | None => None
              end).
  assert (HwalkRun : walkRun arg
    = Some ({| tags := flat_map (fun f => fst (fileStep arg f)) files;
               opened := map fst files |}, err)).
  { unfold walkRun, WalkDir; rewrite Hroot, Hrun; unfold err.
    destruct r as [e|]; [destruct (isSkipDir e || isSkipAll e)|];
      reflexivity. }
  assert (HWalk : Walk arg
    = Some (flat_map (fun f => fst (fileStep arg f)) files, err)).
  { unfold Walk; now rewrite HwalkRun. }
  exists files, err.
  split; [exact HwalkRun|]; split; [exact HWalk|]; split; [exact Hat|].
  intros before f after e Hsplit Hf Hdir Hall.
  destruct (stopsAt_last arg files before after f r e Hstop Hsplit Hf Hdir)
    as [-> Hr].
  assert (Herr : err = Some e).
  { unfold err; rewrite Hr, Hdir, Hall; reflexivity. }
  split; [reflexivity|]; split; [exact Herr|].
  rewrite HWalk, Herr, Hsplit, flat_map_app; simpl.
  now rewrite app_nil_r.
Qed.

(** The scan of repo/sub/a.go answers with the sentinel, which skips the
    rest of repo/sub; repo/y.go is scanned; repo/z.go cannot be opened. *)
Lemma Walk_returns_error_with_partial_tags_skipping :
  Walk walkSkipping = Some ([tagOf (go "repo/y.go")], Some permissionDenied)
  /\ exists files err,
       walkRun walkSkipping
       = Some ({| tags := flat_map (fun f => fst (fileStep walkSkipping f))
                            files;
                  opened := map fst files |}, err)
       /\ Walk walkSkipping
          = Some (flat_map (fun f => fst (fileStep walkSkipping f)) files, err)
       /\ Forall (fileAt (Root walkSkipping) repoSkipping) files
       /\ forall before f after e,
            files = before ++ f :: after ->
            snd (fileStep walkSkipping f) = Some e ->
            isSkipDir e = false ->
            isSkipAll e = false ->
            after = []
            /\ err = Some e
            /\ Walk walkSkipping
               = Some (flat_map (fun g => fst (fileStep walkSkipping g)) before
                       ++ fst (fileStep walkSkipping f), Some e).
Proof.
  split; [reflexivity|].
  apply (Walk_returns_error_with_partial_tags walkSkipping repoSkipping).
  reflexivity.
Defined.

(** C2 (as stated) fails: repo/a.go is scanned and yields a tag, then
    opening repo/b.go fails; [Walk] returns the error and the tag of a.go,
    not an empty sequence. *)
Lemma Walk_error_keeps_tags :
  Open (FileOperator walkLocked) (go "repo/b.go") = inr permissionDenied
  /\ exists tags,
       Walk walkLocked = Some (tags, Some permissionDenied) /\ tags <> [].
Proof.
  split; [reflexivity|].
  exists [tagOf (go "repo/a.go")].
  split; [reflexivity | discriminate].
Qed.

(** C3 (the code at the failing input): repo/private cannot be listed.  The
    callback, handed the listing error on that directory entry, returns nil
    and leaves the state as it was; the walk goes on to repo/main.go and
    [Walk] returns its tag with a nil error.  Whatever the traversal error,
    the callback's answer on the entry is the same. *)
Theorem Walk_drops_listing_error :
  walkFn walkUnlistable (go "repo/private") (Some (dirEntry (go "private")))
    (Some permissionDenied) {| tags := []; opened := [] |}
  = Some ({| tags := []; opened := [] |}, None)
  /\ Walk walkUnlistable = Some ([tagOf (go "repo/main.go")], None)
  /\ forall wErr s,
       walkFn walkUnlistable (go "repo/private")
         (Some (dirEntry (go "private"))) wErr s
       = Some (s, None).
Proof.
  repeat split.
Qed.

(** C4 (the code at the failing input): with no ignore pattern, the
    directory entry named ".github" is pruned, because its name contains
    ".git": the callback returns [SkipDir] on it and the walk opens
    repo/main.go only, never repo/.github/release.go. *)
Theorem Walk_prunes_dot_github :
  Contains (go ".github") (go ".git") = true
  /\ streqb (go ".github") (go ".git") = false
  /\ validatePath (go "repo/.github") (IgnorePatterns walkGithub) = true
  /\ walkFn walkGithub (go "repo/.github") (Some (dirEntry (go ".github")))
       None {| tags := []; opened := [] |}
     = Some ({| tags := []; opened := [] |}, Some SkipDir)
  /\ walkRun walkGithub
     = Some ({| tags := [tagOf (go "repo/main.go")];
                opened := [go "repo/main.go"] |}, None).
Proof.
  repeat split.
Qed.

(** * Further properties of the code *)

(** ** The extractor: which fields make the content *)

Section ExtractorContent.

Variables annotation prefix : gostring.

Lemma skipn_past {A : Type} (done : list A) (x : A) (rest : list A) :
  skipn (length done + 1) (done ++ x :: rest) = rest.
Proof.
  induction done as [|y done IH]; simpl; [reflexivity | exact IH].
Qed.

(** The loop stops at the first field equal to the annotation. *)
Lemma afterPrefixLoop_first_annotation (post : list gostring) :
  forall (pre done : list gostring) (start : nat),
    ~ In annotation pre ->
    afterPrefixLoop (done ++ pre ++ annotation :: post)
      (pre ++ annotation :: post) (length done) start annotation prefix
    = (Join post (go " "), true).
Proof.
  induction pre as [|x pre IH]; intros done start Hnot; simpl.
  - now rewrite streqb_refl, skipn_past.
  - destruct (streqb x annotation) eqn:E.
    + apply streqb_eq in E; subst x; exfalso; apply Hnot; now left.
    + specialize (IH (done ++ [x])
                     (if streqb x prefix then length done + 1 else start)).
      rewrite <- app_assoc, length_app in IH; simpl in IH.
      apply IH; intros Hin; apply Hnot; now right.
Qed.

(** Without the annotation and without the prefix, [start] stays. *)
Lemma afterPrefixLoop_plain (fields : list gostring) :
  forall (rest : list gostring) (i start : nat),
    ~ In annotation rest ->
    ~ In prefix rest ->
    afterPrefixLoop fields rest i start annotation prefix
    = (Join (skipn start fields) (go " "), false).
Proof.
  induction rest as [|x rest IH]; intros i start Ha Hp; simpl;
    [reflexivity|].
  destruct (streqb x annotation) eqn:Ea.
  { apply streqb_eq in Ea; subst x; exfalso; apply Ha; now left. }
  destruct (streqb x prefix) eqn:Ep.
  { apply streqb_eq in Ep; subst x; exfalso; apply Hp; now left. }
  apply IH; intros Hin; [apply Ha | apply Hp]; now right.
Qed.

(** Without the annotation, [start] ends right after the last prefix. *)
Lemma afterPrefixLoop_last_prefix (post : list gostring) :
  forall (pre done : list gostring) (start : nat),
    ~ In annotation (pre ++ prefix :: post) ->
    ~ In prefix post ->
    afterPrefixLoop (done ++ pre ++ prefix :: post)
      (pre ++ prefix :: post) (length done) start annotation prefix
    = (Join post (go " "), false).
Proof.
  induction pre as [|x pre IH]; intros done start Ha Hp; simpl.
  - destruct (streqb prefix annotation) eqn:Ea.
    { apply streqb_eq in Ea; exfalso; apply Ha; now left. }
    rewrite streqb_refl, afterPrefixLoop_plain; auto.
    + now rewrite skipn_past.
    + intros Hin; apply Ha; now right.
  - destruct (streqb x annotation) eqn:Ea.
    { apply streqb_eq in Ea; subst x; exfalso; apply Ha; now left. }
    specialize (IH (done ++ [x])
                   (if streqb x prefix then length done + 1 else start)).
    rewrite <- app_assoc, length_app in IH; simpl in IH.
    apply IH; auto.
    intros Hin; apply Ha; now right.
Qed.

(** X1: when the annotation is a field, [extractAfterPrefix] returns found
    = true and, as content, the fields that follow its first occurrence,
    joined by single spaces; an occurrence of the prefix, before or after,
    makes no difference. *)
Theorem extractAfterPrefix_first_annotation (pre post : list gostring) :
  ~ In annotation pre ->
  extractAfterPrefix (pre ++ annotation :: post) annotation prefix
  = (Join post (go " "), true).
Proof.
  intros Hnot.
  unfold extractAfterPrefix.
  destruct (pre ++ annotation :: post) eqn:E.
  - now destruct pre.
  - rewrite <- E.
    exact (afterPrefixLoop_first_annotation post pre [] 0 Hnot).
Qed.

(** X2: when the annotation is not a field and the prefix is, the content
    is made of the fields that follow the last occurrence of the prefix, and
    found = false. *)
Theorem extractAfterPrefix_last_prefix (pre post : list gostring) :
  ~ In annotation (pre ++ prefix :: post) ->
  ~ In prefix post ->
  extractAfterPrefix (pre ++ prefix :: post) annotation prefix
  = (Join post (go " "), false).
Proof.
  intros Ha Hp.
  unfold extractAfterPrefix.
  destruct (pre ++ prefix :: post) eqn:E.
  - now destruct pre.
  - rewrite <- E in *.
    exact (afterPrefixLoop_last_prefix post pre [] 0 Ha Hp).
Qed.

(** X3: when neither the annotation nor the prefix is a field, the content
    is the whole line, its fields joined by single spaces, and found =
    false. *)
Theorem extractAfterPrefix_whole_line (fields : list gostring) :
  ~ In annotation fields ->
  ~ In prefix fields ->
  extractAfterPrefix fields annotation prefix
  = (Join fields (go " "), false).
Proof.
  intros Ha Hp.
  destruct fields as [|f fields]; [reflexivity|].
  unfold extractAfterPrefix.
  now rewrite afterPrefixLoop_plain.
Qed.

End ExtractorContent.

Lemma extractAfterPrefix_first_annotation_example :
  extractAfterPrefix
    ([go "//"; go "see"] ++ TODO :: [go "fix"; go "//"; TODO; go "twice"])
    TODO (go "//")
  = (go "fix // @TODO twice", true).
Proof.
  apply (extractAfterPrefix_first_annotation TODO (go "//")
           [go "//"; go "see"] [go "fix"; go "//"; TODO; go "twice"]).
  intros Hin; simpl in Hin.
  repeat (destruct Hin as [Hin | Hin]; [discriminate Hin|]).
  exact Hin.
Defined.

Lemma extractAfterPrefix_last_prefix_example :
  extractAfterPrefix
    ([go "*"; go "a"] ++ go "*" :: [go "second"; go "item"]) TODO (go "*")
  = (go "second item", false).
Proof.
  apply (extractAfterPrefix_last_prefix TODO (go "*")
           [go "*"; go "a"] [go "second"; go "item"]).
  - intros Hin; simpl in Hin.
    repeat (destruct Hin as [Hin | Hin]; [discriminate Hin|]).
    exact Hin.
  - intros Hin; simpl in Hin.
    repeat (destruct Hin as [Hin | Hin]; [discriminate Hin|]).
    exact Hin.
Defined.

Lemma extractAfterPrefix_whole_line_example :
  extractAfterPrefix [go "this"; go "function"; go "later"] TODO (go "*/")
  = (go "this function later", false).
Proof.
  apply (extractAfterPrefix_whole_line TODO (go "*/")
           [go "this"; go "function"; go "later"]).
  - intros Hin; simpl in Hin.
    repeat (destruct Hin as [Hin | Hin]; [discriminate Hin|]).
    exact Hin.
  - intros Hin; simpl in Hin.
    repeat (destruct Hin as [Hin | Hin]; [discriminate Hin|]).
    exact Hin.
Defined.

(** ** The classifier: what a call can leave behind *)

Section ClassifierStates.

Lemma singleLoop_Some (trimmedLine : gostring) (prefixes : list gostring)
    (s : gostring) :
  singleLoop trimmedLine prefixes = Some s ->
  In s prefixes /\ HasPrefix trimmedLine s = true.
Proof.
  induction prefixes as [|p prefixes IH]; simpl; [discriminate|].
  destruct (HasPrefix trimmedLine p) eqn:E.
  - intros [= <-]; auto.
  - intros H; destruct (IH H); auto.
Qed.

Lemma singleLoop_None (trimmedLine : gostring) (prefixes : list gostring) :
  singleLoop trimmedLine prefixes = None ->
  forall s, In s prefixes -> HasPrefix trimmedLine s = false.
Proof.
  induction prefixes as [|p prefixes IH]; simpl; [intros _ s []|].
  destruct (HasPrefix trimmedLine p) eqn:E; [discriminate|].
  intros H s [<- | Hin]; auto.
Qed.

Lemma multiLoop_cases (c : Comment) (trimmedLine : gostring) :
  forall (starts : list gostring) (i : nat) (c' : Comment),
    multiLoop c trimmedLine starts i = Some c' ->
    (exists st, In st starts /\ HasPrefix trimmedLine st = true
                /\ c' = setLine c LINE_TYPE_MULTI_START st)
    \/ (exists en, In en (MultiLineEndPrefix c)
                   /\ HasSuffix trimmedLine en = true
                   /\ c' = setLine c LINE_TYPE_MULTI_END en)
    \/ (c' = setLine c LINE_TYPE_SRC_CODE []
        /\ forall st, In st starts -> HasPrefix trimmedLine st = false).
Proof.
  induction starts as [|st starts IH]; intros i c'; simpl.
  - intros [= <-]; right; right; split; [reflexivity | intros st []].
  - destruct (nth_error (MultiLineEndPrefix c) i) as [en|] eqn:En;
      [|discriminate].
    destruct (HasPrefix trimmedLine st) eqn:Est.
    { intros [= <-]; left; exists st; auto. }
    destruct (HasSuffix trimmedLine en) eqn:Een.
    { intros [= <-]; right; left; exists en.
      apply nth_error_In in En; auto. }
    intros H; destruct (IH _ _ H) as [(st' & Hin & Hp & ->) | [Hend | [-> Hno]]].
    + left; exists st'; auto.
    + right; left; exact Hend.
    + right; right; split; [reflexivity|].
      intros st' [<- | Hin]; auto.
Qed.

(** The loops read the prefix slices only, not the two state fields. *)
Lemma multiLoop_setLine (c : Comment) (t p trimmedLine : gostring) :
  forall (starts : list gostring) (i : nat),
    multiLoop (setLine c t p) trimmedLine starts i
    = multiLoop c trimmedLine starts i.
Proof.
  induction starts as [|st starts IH]; intros i; simpl; [reflexivity|].
  destruct (nth_error (MultiLineEndPrefix c) i) as [en|]; [|reflexivity].
  destruct (HasPrefix trimmedLine st); [reflexivity|].
  destruct (HasSuffix trimmedLine en); [reflexivity|].
  apply IH.
Qed.

Lemma SetLineTypeAndPrefix_cases (c c' : Comment) (line : gostring) :
  SetLineTypeAndPrefix c line = Some c' ->
  (c' = c /\ CurrentPrefix c <> []
   /\ (HasPrefix (TrimLeftSpace line) (CurrentPrefix c) = true
       \/ HasSuffix (TrimLeftSpace line) (CurrentPrefix c) = true))
  \/ (exists s, In s (SingleLinePrefix c)
                /\ HasPrefix (TrimLeftSpace line) s = true
                /\ c' = setLine c LINE_TYPE_SINGLE s)
  \/ (exists st, In st (MultiLineStartPrefix c)
                 /\ HasPrefix (TrimLeftSpace line) st = true
                 /\ (forall s, In s (SingleLinePrefix c) ->
                               HasPrefix (TrimLeftSpace line) s = false)
                 /\ c' = setLine c LINE_TYPE_MULTI_START st)
  \/ (exists en, In en (MultiLineEndPrefix c)
                 /\ HasSuffix (TrimLeftSpace line) en = true
                 /\ c' = setLine c LINE_TYPE_MULTI_END en)
  \/ (c' = setLine c LINE_TYPE_SRC_CODE []
      /\ (forall s, In s (SingleLinePrefix c) ->
                    HasPrefix (TrimLeftSpace line) s = false)
      /\ (forall st, In st (MultiLineStartPrefix c) ->
                     HasPrefix (TrimLeftSpace line) st = false)).
Proof.
  unfold SetLineTypeAndPrefix.
  destruct (negb (streqb (CurrentPrefix c) []) && _) eqn:Hguard.
  - intros [= <-]; left.
    apply andb_true_iff in Hguard as [Hne Hor].
    apply negb_true_iff, streqb_neq in Hne.
    apply orb_true_iff in Hor; auto.
  - destruct (singleLoop _ _) as [s|] eqn:Hs.
    + intros [= <-]; right; left; exists s.
      apply singleLoop_Some in Hs as [Hin Hp]; auto.
    + pose proof (singleLoop_None _ _ Hs) as Hno.
      intros H; apply multiLoop_cases in H
        as [(st & Hin & Hp & ->) | [Hend | [-> Hnst]]].
      * right; right; left; exists st; auto.
      * right; right; right; left; exact Hend.
      * right; right; right; right; auto.
Qed.

(** X4: what a call of [SetLineTypeAndPrefix] leaves in the receiver is one
    of five things: the receiver unchanged (the active prefix is not empty
    and the trimmed line starts or ends with it); SINGLE with a single-line
    prefix the line starts with; MULTI_START with a start prefix the line
    starts with, no single-line prefix matching; MULTI_END with an end
    prefix the line ends with; or SRC_CODE with an empty prefix, no
    single-line and no start prefix matching.  The three prefix slices are
    never changed. *)
Theorem SetLineTypeAndPrefix_outcomes (c c' : Comment) (line : gostring) :
  SetLineTypeAndPrefix c line = Some c' ->
  (SingleLinePrefix c' = SingleLinePrefix c
   /\ MultiLineStartPrefix c' = MultiLineStartPrefix c
   /\ MultiLineEndPrefix c' = MultiLineEndPrefix c)
  /\ ((c' = c /\ CurrentPrefix c <> []
       /\ (HasPrefix (TrimLeftSpace line) (CurrentPrefix c) = true
           \/ HasSuffix (TrimLeftSpace line) (CurrentPrefix c) = true))
      \/ (CurrentLineType c' = LINE_TYPE_SINGLE
          /\ In (CurrentPrefix c') (SingleLinePrefix c)
          /\ HasPrefix (TrimLeftSpace line) (CurrentPrefix c') = true)
      \/ (CurrentLineType c' = LINE_TYPE_MULTI_START
          /\ In (CurrentPrefix c') (MultiLineStartPrefix c)
          /\ HasPrefix (TrimLeftSpace line) (CurrentPrefix c') = true
          /\ forall s, In s (SingleLinePrefix c) ->
                       HasPrefix (TrimLeftSpace line) s = false)
      \/ (CurrentLineType c' = LINE_TYPE_MULTI_END
          /\ In (CurrentPrefix c') (MultiLineEndPrefix c)
          /\ HasSuffix (TrimLeftSpace line) (CurrentPrefix c') = true)
      \/ (CurrentLineType c' = LINE_TYPE_SRC_CODE
          /\ CurrentPrefix c' = []
          /\ (forall s, In s (SingleLinePrefix c) ->
                        HasPrefix (TrimLeftSpace line) s = false)
          /\ forall st, In st (MultiLineStartPrefix c) ->
                        HasPrefix (TrimLeftSpace line) st = false)).
Proof.
  intros H.
  destruct (SetLineTypeAndPrefix_cases _ _ _ H)
    as [(-> & Hne & Hor)
       | [(s & Hin & Hp & ->)
         | [(st & Hin & Hp & Hno & ->)
           | [(en & Hin & Hp & ->) | (-> & Hs & Hst)]]]];
    (split; [now repeat split|]).
  - left; auto.
  - right; left; auto.
  - right; right; left; auto.
  - right; right; right; left; auto.
  - right; right; right; right; auto.
Qed.

Lemma SetLineTypeAndPrefix_outcomes_example :
  SetLineTypeAndPrefix cStyleStart (go "   this function later */")
  = Some cStyleEnd
  /\ MultiLineStartPrefix cStyleEnd = MultiLineStartPrefix cStyleStart
  /\ MultiLineEndPrefix cStyleEnd = MultiLineEndPrefix cStyleStart.
Proof.
  split; [reflexivity|].
  apply (proj1 (SetLineTypeAndPrefix_outcomes cStyleStart cStyleEnd
                  (go "   this function later */") eq_refl)).
Defined.

(** A second call on the same line, in the state the first one left. *)
Lemma SetLineTypeAndPrefix_again (c : Comment) (line t p : gostring) :
  (p <> [] ->
   HasPrefix (TrimLeftSpace line) p = true
   \/ HasSuffix (TrimLeftSpace line) p = true) ->
  SetLineTypeAndPrefix c line = Some (setLine c t p) ->
  negb (streqb (CurrentPrefix c) [])
  && (HasPrefix (TrimLeftSpace line) (CurrentPrefix c)
      || HasSuffix (TrimLeftSpace line) (CurrentPrefix c)) = false ->
  SetLineTypeAndPrefix (setLine c t p) line = Some (setLine c t p).
Proof.
  intros Hp Hfirst Hguard.
  unfold SetLineTypeAndPrefix in *.
  rewrite Hguard in Hfirst.
  cbn [CurrentPrefix SingleLinePrefix MultiLineStartPrefix setLine].
  destruct (streqb p []) eqn:Ep.
  - cbn [negb andb].
    destruct (singleLoop _ _) as [s|].
    + unfold setLine in Hfirst; injection Hfirst; intros; subst;
        reflexivity.
    + rewrite multiLoop_setLine; exact Hfirst.
  - apply streqb_neq in Ep.
    apply Hp, orb_true_iff in Ep.
    now rewrite Ep.
Qed.

(** X5: classifying the same line a second time changes nothing: whatever
    state the first call started from, a second call of
    [SetLineTypeAndPrefix] on that line returns the state the first one
    left. *)
Theorem SetLineTypeAndPrefix_idempotent (c c' : Comment) (line : gostring) :
  SetLineTypeAndPrefix c line = Some c' ->
  SetLineTypeAndPrefix c' line = Some c'.
Proof.
  intros H.
  destruct (negb (streqb (CurrentPrefix c) [])
            && (HasPrefix (TrimLeftSpace line) (CurrentPrefix c)
                || HasSuffix (TrimLeftSpace line) (CurrentPrefix c)))
    eqn:Hguard.
  - unfold SetLineTypeAndPrefix in H; rewrite Hguard in H.
    injection H as <-.
    unfold SetLineTypeAndPrefix; now rewrite Hguard.
  - destruct (SetLineTypeAndPrefix_cases _ _ _ H)
      as [(-> & Hne & Hor)
         | [(s & Hin & Hp & ->)
           | [(st & Hin & Hp & Hno & ->)
             | [(en & Hin & Hp & ->) | (-> & Hs & Hst)]]]].
    + exact H.
    + apply SetLineTypeAndPrefix_again; auto.
    + apply SetLineTypeAndPrefix_again; auto.
    + apply SetLineTypeAndPrefix_again; auto.
    + apply SetLineTypeAndPrefix_again; auto.
Qed.

Lemma SetLineTypeAndPrefix_idempotent_example :
  SetLineTypeAndPrefix cStyleEnd (go "   this function later */")
  = Some cStyleEnd.
Proof.
  apply (SetLineTypeAndPrefix_idempotent cStyleStart cStyleEnd
           (go "   this function later */")).
  reflexivity.
Defined.

End ClassifierStates.

(** ** The classifier: blank lines, degenerate syntaxes, the registry *)

Section ClassifierEdges.

Lemma HasPrefix_nil_false (p : gostring) : p <> [] -> HasPrefix [] p = false.
Proof. destruct p; [intros H; now contradiction H | reflexivity]. Qed.

Lemma HasSuffix_nil_false (p : gostring) : p <> [] -> HasSuffix [] p = false.
Proof. destruct p; [intros H; now contradiction H | reflexivity]. Qed.

Lemma singleLoop_nil (prefixes : list gostring) :
  Forall (fun p => p <> []) prefixes -> singleLoop [] prefixes = None.
Proof.
  induction 1 as [|p prefixes Hp _ IH]; simpl; [reflexivity|].
  now rewrite HasPrefix_nil_false.
Qed.

Lemma multiLoop_nil (c : Comment) :
  Forall (fun p => p <> []) (MultiLineEndPrefix c) ->
  forall (starts : list gostring) (i : nat),
    Forall (fun p => p <> []) starts ->
    i + length starts <= length (MultiLineEndPrefix c) ->
    multiLoop c [] starts i = Some (setLine c LINE_TYPE_SRC_CODE []).
Proof.
  intros Hends starts i Hstarts; revert i.
  induction Hstarts as [|st starts Hst _ IH]; intros i Hlen; simpl in *;
    [reflexivity|].
  destruct (nth_error (MultiLineEndPrefix c) i) as [en|] eqn:En.
  - rewrite HasPrefix_nil_false by exact Hst.
    rewrite HasSuffix_nil_false.
    + apply IH; lia.
    + apply nth_error_In in En.
      rewrite Forall_forall in Hends; now apply Hends.
  - apply nth_error_None in En; lia.
Qed.

(** X6: a line with no field (empty, or white space only) yields the empty
    content with found = false and resets the classifier: after the call
    the line type is SRC_CODE and the active prefix is empty, also in the
    middle of a multi-line block; this for every syntax whose prefixes are
    non-empty and whose start prefixes each have an end prefix. *)
Theorem ExtractCommentContent_blank_line (c : Comment)
    (line annotation : gostring) :
  Forall (fun p => p <> []) (SingleLinePrefix c) ->
  Forall (fun p => p <> []) (MultiLineStartPrefix c) ->
  Forall (fun p => p <> []) (MultiLineEndPrefix c) ->
  length (MultiLineStartPrefix c) <= length (MultiLineEndPrefix c) ->
  Fields line = [] ->
  exists c',
    ExtractCommentContent c line annotation = Some ([], false, c')
    /\ CurrentLineType c' = LINE_TYPE_SRC_CODE
    /\ CurrentPrefix c' = []
    /\ c' = setLine c LINE_TYPE_SRC_CODE [].
Proof.
  intros Hsingle Hstarts Hends Hlen Hblank.
  exists (setLine c LINE_TYPE_SRC_CODE []).
  split; [|repeat split].
  unfold ExtractCommentContent; rewrite Hblank.
  assert (Hset : SetLineTypeAndPrefix c (Join [] (go " "))
                 = Some (setLine c LINE_TYPE_SRC_CODE [])).
  { unfold SetLineTypeAndPrefix; simpl Join; simpl TrimLeftSpace.
    destruct (streqb (CurrentPrefix c) []) eqn:E; simpl negb.
    - cbn [andb].
      now rewrite singleLoop_nil, multiLoop_nil.
    - apply streqb_neq in E.
      rewrite HasPrefix_nil_false, HasSuffix_nil_false by exact E.
      cbn [andb orb].
      now rewrite singleLoop_nil, multiLoop_nil. }
  rewrite Hset; reflexivity.
Qed.

Lemma ExtractCommentContent_blank_line_in_block :
  CurrentLineType cStyleStart = LINE_TYPE_MULTI_START
  /\ exists c',
       ExtractCommentContent cStyleStart [0x20; 0x09; 0x20]%N TODO
       = Some ([], false, c')
       /\ CurrentLineType c' = LINE_TYPE_SRC_CODE
       /\ CurrentPrefix c' = []
       /\ c' = setLine cStyleStart LINE_TYPE_SRC_CODE [].
Proof.
  split; [reflexivity|].
  apply (ExtractCommentContent_blank_line cStyleStart [0x20; 0x09; 0x20]%N
           TODO).
  - repeat constructor; discriminate.
  - repeat constructor; discriminate.
  - repeat constructor; discriminate.
  - simpl; lia.
  - reflexivity.
Defined.

(** X7: when every multi-line start prefix is also a single-line prefix, as
    in the default syntax, the single-line test always wins: no call of
    [SetLineTypeAndPrefix] ever moves the classifier into MULTI_START. *)
Theorem SetLineTypeAndPrefix_never_MULTI_START (c c' : Comment)
    (line : gostring) :
  incl (MultiLineStartPrefix c) (SingleLinePrefix c) ->
  CurrentLineType c <> LINE_TYPE_MULTI_START ->
  SetLineTypeAndPrefix c line = Some c' ->
  CurrentLineType c' <> LINE_TYPE_MULTI_START.
Proof.
  intros Hincl Hnot H.
  destruct (SetLineTypeAndPrefix_cases _ _ _ H)
    as [(-> & _ & _)
       | [(s & _ & _ & ->)
         | [(st & Hin & Hp & Hno & ->)
           | [(en & _ & _ & ->) | (-> & _ & _)]]]];
    try exact Hnot; try discriminate.
  apply Hincl, Hno in Hin; congruence.
Qed.

Lemma SetLineTypeAndPrefix_never_MULTI_START_default :
  SetLineTypeAndPrefix (CommentPrefixes fileExtRuby) (go "# @TODO in ruby")
  = Some (setLine (CommentPrefixes fileExtRuby) LINE_TYPE_SINGLE (go "#"))
  /\ CurrentLineType
       (setLine (CommentPrefixes fileExtRuby) LINE_TYPE_SINGLE (go "#"))
     <> LINE_TYPE_MULTI_START.
Proof.
  split; [reflexivity|].
  apply (SetLineTypeAndPrefix_never_MULTI_START (CommentPrefixes fileExtRuby)
           (setLine (CommentPrefixes fileExtRuby) LINE_TYPE_SINGLE (go "#"))
           (go "# @TODO in ruby")).
  - intros p Hin; exact Hin.
  - discriminate.
  - reflexivity.
Defined.

(** Every entry of the registry pairs its start prefixes with end prefixes. *)
Lemma CommentPrefixes_paired (ext : gostring) :
  length (MultiLineStartPrefix (CommentPrefixes ext))
  = length (MultiLineEndPrefix (CommentPrefixes ext)).
Proof.
  unfold CommentPrefixes.
  destruct (existsb _ _); [reflexivity|].
  destruct (streqb ext fileExtPython); [reflexivity|].
  destruct (streqb ext fileExtMarkdown); reflexivity.
Qed.

Lemma SetLineTypeAndPrefix_slices (c c' : Comment) (line : gostring) :
  SetLineTypeAndPrefix c line = Some c' ->
  MultiLineStartPrefix c' = MultiLineStartPrefix c
  /\ MultiLineEndPrefix c' = MultiLineEndPrefix c.
Proof.
  intros H.
  destruct (SetLineTypeAndPrefix_cases _ _ _ H)
    as [(-> & _ & _)
       | [(s & _ & _ & ->)
         | [(st & _ & _ & _ & ->)
           | [(en & _ & _ & ->) | (-> & _ & _)]]]];
    now split.
Qed.

Lemma reachable_paired (ext : gostring) (c : Comment) :
  reachable ext c ->
  length (MultiLineStartPrefix c) = length (MultiLineEndPrefix c).
Proof.
  induction 1 as [|c line annotation content found c' _ IH Hstep].
  - apply CommentPrefixes_paired.
  - unfold ExtractCommentContent in Hstep.
    destruct (SetLineTypeAndPrefix c _) as [c1|] eqn:E; [|discriminate].
    destruct (if streqb _ _ then _ else _) as [content1 found1].
    injection Hstep as _ _ <-.
    apply SetLineTypeAndPrefix_slices in E as [-> ->]; exact IH.
Qed.

(** X8: scanning a file never runs into the index panic of the multi-line
    loop: from the syntax that [CommentPrefixes] gives for any extension,
    and after any lines fed to [ExtractCommentContent], the next call
    returns. *)
Theorem ExtractCommentContent_returns_on_registry (ext : gostring)
    (c : Comment) (line annotation : gostring) :
  reachable ext c ->
  exists content found c',
    ExtractCommentContent c line annotation = Some (content, found, c').
Proof.
  intros Hreach.
  apply reachable_paired in Hreach.
  unfold ExtractCommentContent.
  destruct (SetLineTypeAndPrefix_returns c (Join (Fields line) (go " ")))
    as [c' ->]; [lia|].
  destruct (if streqb _ _ then _ else _) as [content found].
  now exists content, found, c'.
Qed.

Lemma ExtractCommentContent_returns_in_go_block :
  exists content found c',
    ExtractCommentContent cStyleStart (go "   this function later */") TODO
    = Some (content, found, c').
Proof.
  apply (ExtractCommentContent_returns_on_registry fileExtGo cStyleStart
           (go "   this function later */") TODO).
  apply (reachable_line fileExtGo (CommentPrefixes fileExtGo)
           (go "/* @TODO refactor") TODO (go "refactor") true cStyleStart).
  - apply reachable_fresh.
  - reflexivity.
Defined.

End ClassifierEdges.

(** ** Fields, Join and white space *)

Section WhiteSpace.

Lemma fieldsFrom_isField (s : gostring) :
  forall cur : gostring,
    Forall (fun r => IsSpace r = false) cur ->
    Forall isField (fieldsFrom cur s).
Proof.
  assert (Hrev : forall cur : gostring,
    cur <> [] -> Forall (fun r => IsSpace r = false) cur -> isField (rev cur)).
  { intros cur Hne Hcur; split.
    - intros Hnil; apply (f_equal (@rev rune)) in Hnil.
      rewrite rev_involutive in Hnil; contradiction.
    - now apply Forall_rev. }
  induction s as [|r s IH]; intros cur Hcur; simpl.
  - destruct cur as [|a cur]; constructor; [|constructor].
    now apply Hrev.
  - destruct (IsSpace r) eqn:Er.
    + destruct cur as [|a cur]; [now apply IH|].
      constructor; [now apply Hrev | now apply IH].
    + apply IH; now constructor.
Qed.

(** The fields of a line are non-empty and free of white space. *)
Lemma Fields_isField (s : gostring) : Forall isField (Fields s).
Proof. apply fieldsFrom_isField; constructor. Qed.

Lemma fieldsFrom_app (f : gostring) :
  Forall (fun r => IsSpace r = false) f ->
  forall cur rest : gostring,
    fieldsFrom cur (f ++ rest) = fieldsFrom (rev f ++ cur) rest.
Proof.
  induction 1 as [|r f Hr _ IH]; intros cur rest; simpl; [reflexivity|].
  now rewrite Hr, IH, <- app_assoc.
Qed.

(** Joining fields by one space and splitting again gives them back. *)
Lemma Fields_Join (fs : list gostring) :
  Forall isField fs -> Fields (Join fs (go " ")) = fs.
Proof.
  unfold Fields.
  induction 1 as [|f fs [Hne Hf] Hfs IH]; [reflexivity|].
  destruct fs as [|g fs].
  - simpl.
    replace (fieldsFrom [] f) with (fieldsFrom [] (f ++ []))
      by now rewrite app_nil_r.
    rewrite fieldsFrom_app by exact Hf.
    simpl; rewrite app_nil_r.
    destruct (rev f) eqn:E.
    + apply (f_equal (@rev rune)) in E; rewrite rev_involutive in E.
      contradiction.
    + now rewrite <- E, rev_involutive.
  - change (Join (f :: g :: fs) (go " "))
      with (f ++ go " " ++ Join (g :: fs) (go " ")).
    rewrite fieldsFrom_app by exact Hf.
    rewrite app_nil_r; simpl.
    destruct (rev f) eqn:E.
    + apply (f_equal (@rev rune)) in E; rewrite rev_involutive in E.
      contradiction.
    + rewrite <- E, rev_involutive.
      f_equal; exact IH.
Qed.

(** X9: [ExtractCommentContent] sees a line through its fields only: the
    line with its white space normalised (fields joined by single spaces,
    nothing leading or trailing) gives the same content, flag and state. *)
Theorem ExtractCommentContent_normalised_line (c : Comment)
    (line annotation : gostring) :
  ExtractCommentContent c (Join (Fields line) (go " ")) annotation
  = ExtractCommentContent c line annotation.
Proof.
  unfold ExtractCommentContent.
  now rewrite Fields_Join by apply Fields_isField.
Qed.

Lemma Forall_skipn {A : Type} (P : A -> Prop) (n : nat) (l : list A) :
  Forall P l -> Forall P (skipn n l).
Proof.
  intros H; rewrite <- (firstn_skipn n l) in H.
  now apply Forall_app in H.
Qed.

Lemma Forall_firstn {A : Type} (P : A -> Prop) (n : nat) (l : list A) :
  Forall P l -> Forall P (firstn n l).
Proof.
  intros H; rewrite <- (firstn_skipn n l) in H.
  now apply Forall_app in H.
Qed.

(** The content is always a tail of the fields, joined. *)
Lemma afterPrefixLoop_tail (fields : list gostring)
    (annotation prefix : gostring) :
  forall (rest : list gostring) (i start : nat),
    exists n, fst (afterPrefixLoop fields rest i start annotation prefix)
              = Join (skipn n fields) (go " ").
Proof.
  induction rest as [|x rest IH]; intros i start; simpl.
  - now exists start.
  - destruct (streqb x annotation); [now exists (i + 1) | apply IH].
Qed.

Lemma extractAfterPrefix_tail (fields : list gostring)
    (annotation prefix : gostring) :
  exists n, fst (extractAfterPrefix fields annotation prefix)
            = Join (skipn n fields) (go " ").
Proof.
  destruct fields as [|f fields]; [now exists 0|].
  apply afterPrefixLoop_tail.
Qed.

Lemma extractBeforeSuffix_tail (fields : list gostring)
    (annotation prefix : gostring) :
  exists n m, fst (extractBeforeSuffix fields annotation prefix)
              = Join (skipn n (firstn m fields)) (go " ").
Proof.
  destruct fields as [|f fields]; [now exists 0, 0|].
  unfold extractBeforeSuffix.
  destruct (streqb _ _).
  - destruct (extractAfterPrefix_tail
                (firstn (length (f :: fields) - 1) (f :: fields))
                annotation prefix) as [n Hn].
    now exists n, (length (f :: fields) - 1).
  - destruct (extractAfterPrefix_tail (f :: fields) annotation prefix)
      as [n Hn].
    exists n, (length (f :: fields)).
    now rewrite firstn_all.
Qed.

(** X10: the content that [ExtractCommentContent] returns is normalised:
    it has no leading or trailing white space and its words are separated
    by single spaces, so splitting it into fields and joining them again
    gives the content back. *)
Theorem ExtractCommentContent_content_normalised (c c' : Comment)
    (line annotation content : gostring) (found : bool) :
  ExtractCommentContent c line annotation = Some (content, found, c') ->
  Join (Fields content) (go " ") = content.
Proof.
  unfold ExtractCommentContent.
  destruct (SetLineTypeAndPrefix c _) as [c1|]; [|discriminate].
  pose proof (Fields_isField line) as Hfields.
  destruct (streqb (CurrentLineType c1) LINE_TYPE_MULTI_END).
  - destruct (extractBeforeSuffix_tail (Fields line) annotation
                (CurrentPrefix c1)) as (n & m & Hnm).
    destruct (extractBeforeSuffix _ _ _) as [content1 found1].
    intros [= <- _ _]; simpl in Hnm; subst content1.
    now rewrite Fields_Join by now apply Forall_skipn, Forall_firstn.
  - destruct (extractAfterPrefix_tail (Fields line) annotation
                (CurrentPrefix c1)) as (n & Hn).
    destruct (extractAfterPrefix _ _ _) as [content1 found1].
    intros [= <- _ _]; simpl in Hn; subst content1.
    now rewrite Fields_Join by now apply Forall_skipn.
Qed.

Lemma ExtractCommentContent_content_normalised_example :
  ExtractCommentContent cStyle (go "  //  @TODO   fix the   parser  ") TODO
  = Some (go "fix the parser", true,
          setLine cStyle LINE_TYPE_SINGLE (go "//"))
  /\ Join (Fields (go "fix the parser")) (go " ") = go "fix the parser".
Proof.
  split; [reflexivity|].
  apply (ExtractCommentContent_content_normalised cStyle
           (setLine cStyle LINE_TYPE_SINGLE (go "//"))
           (go "  //  @TODO   fix the   parser  ") TODO
           (go "fix the parser") true).
  reflexivity.
Defined.

End WhiteSpace.

(** ** The walk: ignore patterns, pruning by name, a walk without failure *)

Section WalkMore.

(** X11: [validatePath] accepts a path exactly when none of the ignore
    patterns matches it; with no pattern every path is accepted, and one
    matching pattern is enough to reject, wherever it stands in the list. *)
Theorem validatePath_true_iff (path : gostring)
    (ignorePatterns : list GitIgnorePattern) :
  validatePath path ignorePatterns = true
  <-> Forall (fun v => Match v path = false) ignorePatterns.
Proof.
  induction ignorePatterns as [|v rest IH]; simpl.
  - split; [constructor | reflexivity].
  - destruct (Match v path) eqn:E.
    + split; [discriminate|].
      intros H; inversion H; congruence.
    + rewrite IH; split; [now constructor | now inversion 1].
Qed.

(** X12: a directory entry whose name contains ".git" (the .git directory
    itself, for one) is pruned whatever the ignore patterns: the walk of
    its subtree returns at once, opens nothing and adds no tag. *)
Theorem walkDir_prunes_git_directory (arg : WalkParams) (path : gostring)
    (d : DirEntry) (dirs : list tree) (readErr : option error) (s : State) :
  IsDir d = true ->
  Contains (Name d) (go ".git") = true ->
  walkDir (walkFn arg) path (Tree d dirs readErr) s = Some (s, None).
Proof.
  intros Hdir Hgit.
  rewrite walkDir_unfold, walkFn_dir by exact Hdir.
  rewrite Hgit; simpl.
  now rewrite Hdir.
Qed.

Lemma walkDir_prunes_dot_git :
  walkDir (walkFn walkGithub) (go "repo/.git")
    (Tree (dirEntry (go ".git")) [file (go "config"); file (go "HEAD")] None)
    {| tags := []; opened := [] |}
  = Some ({| tags := []; opened := [] |}, None).
Proof.
  apply (walkDir_prunes_git_directory walkGithub (go "repo/.git")
           (dirEntry (go ".git")) [file (go "config"); file (go "HEAD")] None
           {| tags := []; opened := [] |}); reflexivity.
Defined.

Lemma scanAll_all_succeed (arg : WalkParams)
    (files : list (gostring * DirEntry)) :
  Forall (fun g => snd (fileStep arg g) = None) files ->
  forall s : State,
    scanAll arg files s
    = ({| tags := tags s ++ flat_map (fun g => fst (fileStep arg g)) files;
          opened := opened s ++ map fst files |}, None).
Proof.
  induction 1 as [|g files Hg _ IH]; intros s; simpl.
  - rewrite !app_nil_r; now destruct s.
  - rewrite Hg, IH; simpl.
    now rewrite <- !app_assoc.
Qed.

(** X13: when every per-file step succeeds, [Walk] returns a nil error and
    the tags of all the files in [scanOrder], file after file in listing
    order, and it has opened exactly those files in that order; directories
    that could not be listed do not change this. *)
Theorem Walk_without_failure (arg : WalkParams) (t : tree) :
  Lstat (FileOperator arg) (Root arg) = inl t ->
  Forall (fun g => snd (fileStep arg g) = None)
    (scanOrder (IgnorePatterns arg) (Root arg) t) ->
  walkRun arg
  = Some ({| tags := flat_map (fun g => fst (fileStep arg g))
                       (scanOrder (IgnorePatterns arg) (Root arg) t);
             opened := map fst (scanOrder (IgnorePatterns arg) (Root arg) t) |},
          None)
  /\ Walk arg
     = Some (flat_map (fun g => fst (fileStep arg g))
               (scanOrder (IgnorePatterns arg) (Root arg) t), None).
Proof.
  intros Hroot Hok.
  assert (Hrun : walkRun arg
    = Some ({| tags := flat_map (fun g => fst (fileStep arg g))
                         (scanOrder (IgnorePatterns arg) (Root arg) t);
               opened := map fst
                           (scanOrder (IgnorePatterns arg) (Root arg) t) |},
            None)).
  { unfold walkRun, WalkDir.
    rewrite Hroot, walkDir_scanAll;
      rewrite (scanAll_all_succeed arg _ Hok); simpl;
      [reflexivity | discriminate]. }
  split; [exact Hrun|].
  unfold Walk; now rewrite Hrun.
Qed.

Lemma Walk_without_failure_unlistable :
  walkRun walkUnlistable
  = Some ({| tags := [tagOf (go "repo/main.go")];
             opened := [go "repo/main.go"] |}, None)
  /\ Walk walkUnlistable = Some ([tagOf (go "repo/main.go")], None).
Proof.
  apply (Walk_without_failure walkUnlistable repoUnlistable).
  - reflexivity.
  - repeat constructor.
Defined.

(** X14: a root that cannot be stat'ed makes [Walk] panic instead of
    returning the error: the callback is handed a nil entry together with
    the error and calls [d.IsDir()] on it before looking at anything else. *)
Theorem Walk_panics_on_missing_root (arg : WalkParams) (err : error) :
  Lstat (FileOperator arg) (Root arg) = inr err ->
  Walk arg = None.
Proof.
  intros Hroot.
  unfold Walk, walkRun, WalkDir.
  now rewrite Hroot.
Qed.

Lemma Walk_panics_on_missing_root_example :
  Walk {| Root := go "nowhere";
          TagManager := oneTagManager;
          FileOperator := repoOperator repoGithub [];
          IgnorePatterns := [] |} = None.
Proof.
  apply (Walk_panics_on_missing_root
           {| Root := go "nowhere";
              TagManager := oneTagManager;
              FileOperator := repoOperator repoGithub [];
              IgnorePatterns := [] |}
           (Failure (go "no such file or directory"))).
  reflexivity.
Defined.

End WalkMore.

(** ** Splitting *)

Section Splitting.

Lemma HasPrefix_app (p s : gostring) : HasPrefix (p ++ s) p = true.
Proof.
  unfold HasPrefix.
  rewrite length_app, firstn_app, Nat.sub_diag, firstn_all, firstn_O,
    app_nil_r, streqb_refl.
  rewrite andb_true_r; apply Nat.leb_le; lia.
Qed.

Lemma HasPrefix_split (s p : gostring) :
  HasPrefix s p = true -> exists b, s = p ++ b.
Proof.
  unfold HasPrefix; intros H.
  apply andb_true_iff in H as [_ H]; apply streqb_eq in H.
  exists (skipn (length p) s).
  now rewrite <- H at 1; rewrite firstn_skipn.
Qed.

Lemma Contains_false_cons (r : rune) (s sub : gostring) :
  Contains (r :: s) sub = false ->
  HasPrefix (r :: s) sub = false /\ Contains s sub = false.
Proof. simpl; intros H; now apply orb_false_iff in H. Qed.

(** Where the string occurs: some [a ++ sub ++ b]. *)
Lemma Contains_occurs (s sub : gostring) :
  Contains s sub = true <-> exists a b, s = a ++ sub ++ b.
Proof.
  split.
  - induction s as [|r s IH]; simpl; intros H;
      apply orb_true_iff in H as [H | H]; try discriminate.
    + apply HasPrefix_split in H as [b ->]; now exists [], b.
    + apply HasPrefix_split in H as [b ->]; now exists [], b.
    + destruct (IH H) as (a & b & ->); now exists (r :: a), b.
  - intros (a & b & ->).
    induction a as [|r a IH]; simpl.
    + assert (Hhead : forall t, HasPrefix t sub = true -> Contains t sub = true).
      { intros [|r t] Ht; simpl; now rewrite Ht. }
      apply Hhead, HasPrefix_app.
    + now rewrite IH, orb_true_r.
Qed.

Lemma Contains_single (x : rune) (s : gostring) :
  ~ In x s -> Contains s [x] = false.
Proof.
  intros Hnot.
  destruct (Contains s [x]) eqn:E; [|reflexivity].
  apply Contains_occurs in E as (a & b & ->).
  exfalso; apply Hnot, in_or_app; right; now left.
Qed.

Variables (sep : gostring) (sepSave : bool).

(** Without an occurrence of the separator there is one piece. *)
Lemma genSplit_absent (s : gostring) :
  forall cur : gostring,
    Contains s sep = false ->
    genSplit sep sepSave cur 0 s = [rev cur ++ s].
Proof.
  induction s as [|r s IH]; intros cur H; simpl.
  - now rewrite app_nil_r.
  - apply Contains_false_cons in H as [Hhere Hlater].
    rewrite Hhere, IH by exact Hlater.
    simpl; now rewrite <- app_assoc.
Qed.

(** The runes of a separator just found are passed over. *)
Lemma genSplit_skip (skip : nat) :
  forall (s cur : gostring),
    skip <= length s ->
    genSplit sep sepSave cur skip s
    = genSplit sep sepSave cur 0 (skipn skip s).
Proof.
  induction skip as [|k IH]; intros s cur Hlen; [reflexivity|].
  destruct s as [|r s]; simpl in *; [lia|].
  apply IH; lia.
Qed.

(** The separator at the front. *)
Lemma genSplit_front (s : gostring) :
  sep <> [] ->
  genSplit sep sepSave [] 0 (sep ++ s)
  = (if sepSave then sep else []) :: genSplit sep sepSave [] 0 s.
Proof.
  intros Hne.
  destruct sep as [|x sep'] eqn:E; [contradiction|].
  rewrite <- E.
  assert (Hcons : sep ++ s = x :: sep' ++ s) by now rewrite E.
  rewrite Hcons; cbn [genSplit]; rewrite <- Hcons, HasPrefix_app.
  f_equal.
  rewrite genSplit_skip.
  - rewrite E; simpl; rewrite Nat.sub_0_r.
    now rewrite skipn_app, Nat.sub_diag, skipn_all.
  - rewrite E, length_app; simpl; lia.
Qed.

End Splitting.

Section SplittingAtARune.

Variable x : rune.

(** The first piece ends at the first occurrence of the separator. *)
Lemma genSplit_rune (sepSave : bool) (a b : gostring) :
  forall cur : gostring,
    ~ In x a ->
    genSplit [x] sepSave cur 0 (a ++ x :: b)
    = (rev cur ++ a ++ (if sepSave then [x] else []))
      :: genSplit [x] sepSave [] 0 b.
Proof.
  induction a as [|r a IH]; intros cur Hnot.
  - cbn [genSplit app].
    replace (HasPrefix (x :: b) [x]) with true
      by (symmetry; apply (HasPrefix_app [x] b)).
    reflexivity.
  - cbn [genSplit app].
    assert (Hr : HasPrefix (r :: a ++ x :: b) [x] = false).
    { unfold HasPrefix; simpl.
      destruct (N.eqb r x) eqn:E; [|reflexivity].
      apply N.eqb_eq in E; subst r; exfalso; apply Hnot; now left. }
    rewrite Hr, IH.
    + simpl; now rewrite <- app_assoc.
    + intros Hin; apply Hnot; now right.
Qed.

Lemma Split_no_rune (a : gostring) : ~ In x a -> Split a [x] = [a].
Proof.
  intros Hnot; unfold Split.
  now rewrite genSplit_absent by now apply Contains_single.
Qed.

Lemma Split_at_rune (a b : gostring) :
  ~ In x a -> Split (a ++ x :: b) [x] = a :: Split b [x].
Proof.
  intros Hnot; unfold Split.
  rewrite genSplit_rune by exact Hnot.
  simpl; now rewrite app_nil_r.
Qed.

(** Lines joined by the separator split into the lines again. *)
Lemma Split_Join (l : gostring) (ls : list gostring) :
  Forall (fun l => ~ In x l) (l :: ls) ->
  Split (Join (l :: ls) [x]) [x] = l :: ls.
Proof.
  revert l; induction ls as [|l2 ls IH]; intros l Hall.
  - simpl; apply Split_no_rune; now inversion Hall.
  - change (Join (l :: l2 :: ls) [x]) with (l ++ x :: Join (l2 :: ls) [x]).
    inversion Hall as [|? ? Hl Hrest]; subst.
    rewrite Split_at_rune by exact Hl.
    now rewrite IH.
Qed.

End SplittingAtARune.

Lemma TrimSuffix_app (s suffix : gostring) :
  TrimSuffix (s ++ suffix) suffix = s.
Proof.
  unfold TrimSuffix, HasSuffix.
  rewrite length_app.
  replace (length s + length suffix - length suffix) with (length s) by lia.
  rewrite skipn_app, skipn_all, Nat.sub_diag, skipn_O, streqb_refl.
  rewrite firstn_app, firstn_all, Nat.sub_diag, firstn_O, app_nil_r.
  simpl.
  replace (length suffix <=? length s + length suffix) with true;
    [reflexivity|].
  symmetry; apply Nat.leb_le; lia.
Qed.

(** ** package scm: the output of git remote *)

Section Remotes.

Lemma Contains_lacking (x : rune) (s sub : gostring) :
  In x sub -> ~ In x s -> Contains s sub = false.
Proof.
  intros Hsub Hnot.
  destruct (Contains s sub) eqn:E; [|reflexivity].
  apply Contains_occurs in E as (a & b & ->).
  exfalso; apply Hnot, in_or_app; right; apply in_or_app; now left.
Qed.

Lemma Fields_field_then (a rest : gostring) (w : rune) :
  isField a -> IsSpace w = true ->
  Fields (a ++ w :: rest) = a :: Fields rest.
Proof.
  intros [Hne Ha] Hw.
  unfold Fields.
  rewrite fieldsFrom_app by exact Ha.
  rewrite app_nil_r; simpl; rewrite Hw.
  destruct (rev a) eqn:E.
  - apply (f_equal (@rev rune)) in E; rewrite rev_involutive in E.
    contradiction.
  - now rewrite <- E, rev_involutive.
Qed.

Lemma Fields_field (a : gostring) : isField a -> Fields a = [a].
Proof.
  intros Ha.
  apply (Fields_Join [a]); now constructor.
Qed.

Lemma isField_no_space (a : gostring) (w : rune) :
  isField a -> IsSpace w = true -> ~ In w a.
Proof.
  intros [_ Ha] Hw Hin.
  rewrite Forall_forall in Ha; apply Ha in Hin; congruence.
Qed.

Lemma plainName_no_space (n : gostring) :
  plainName n -> Forall (fun r => IsSpace r = false) n.
Proof. apply Forall_impl; now intros r [H _]. Qed.

Lemma plainName_no_slash (n : gostring) : plainName n -> ~ In 0x2F%N n.
Proof.
  intros Hn Hin; unfold plainName in Hn.
  rewrite Forall_forall in Hn; apply Hn in Hin as (_ & H & _); now apply H.
Qed.

Lemma plainName_no_colon (n : gostring) : plainName n -> ~ In 0x3A%N n.
Proof.
  intros Hn Hin; unfold plainName in Hn.
  rewrite Forall_forall in Hn; apply Hn in Hin as (_ & _ & H); now apply H.
Qed.

(** The three fields of a line of the output. *)
Lemma Fields_remoteLine (remote url direction : gostring) :
  isField remote -> isField url -> isField direction ->
  Fields (remoteLine remote url direction) = [remote; url; direction].
Proof.
  intros Hr Hu Hd.
  unfold remoteLine; simpl.
  rewrite Fields_field_then by (exact Hr || reflexivity).
  rewrite Fields_field_then by (exact Hu || reflexivity).
  now rewrite Fields_field.
Qed.

Lemma remoteLine_one_line (remote url direction : gostring) :
  isField remote -> isField url -> isField direction ->
  ~ In 0x0A%N (remoteLine remote url direction).
Proof.
  intros Hr Hu Hd Hin.
  unfold remoteLine in Hin; simpl in Hin.
  apply in_app_or in Hin as [Hin | [Hin | Hin]].
  - now apply (isField_no_space remote 0x0A%N Hr).
  - discriminate.
  - apply in_app_or in Hin as [Hin | [Hin | Hin]].
    + now apply (isField_no_space url 0x0A%N Hu).
    + discriminate.
    + now apply (isField_no_space direction 0x0A%N Hd).
Qed.

(** The first piece of the split at newlines is the first line. *)
Lemma Split_first_line (out line : gostring) :
  startsWithLine out line -> ~ In 0x0A%N line ->
  exists rest, Split out [0x0A%N] = line :: rest.
Proof.
  intros [-> | (rest & ->)] Hline.
  - exists []; now apply Split_no_rune.
  - exists (Split rest [0x0A%N]); now apply Split_at_rune.
Qed.

Lemma startsWithLine_length (out line : gostring) :
  startsWithLine out line -> line <> [] -> (length out =? 0) = false.
Proof.
  intros [-> | (rest & ->)] Hne; destruct line; try contradiction;
    reflexivity.
Qed.

(** What [ExtractUserRepoName] does once the first line is read. *)
Lemma ExtractUserRepoName_first_line (out remote url direction : gostring) :
  isField remote -> isField url -> isField direction ->
  startsWithLine out (remoteLine remote url direction) ->
  ExtractUserRepoName out
  = if HasPrefix url (go "https") then
      match extractFromHTTPS url with
      | None => None
      | Some (userName, repoName) => Some (userName, repoName, None)
      end
    else if HasPrefix url (go "git") then
      match extractFromSSH url with
      | None => None
      | Some (userName, repoName) => Some (userName, repoName, None)
      end
    else Some ([], [], Some (go "expected a https or ssh url but got " ++ url)).
Proof.
  intros Hr Hu Hd Hout.
  unfold ExtractUserRepoName.
  rewrite (startsWithLine_length _ _ Hout).
  - destruct (Split_first_line _ _ Hout) as [rest ->];
      [now apply remoteLine_one_line|].
    cbn [nth_error].
    rewrite Fields_remoteLine by assumption.
    reflexivity.
  - unfold remoteLine; destruct Hr as [Hne _].
    destruct remote; [contradiction | discriminate].
Qed.

Lemma isField_app (a b : gostring) :
  Forall (fun r => IsSpace r = false) a -> isField b -> isField (a ++ b).
Proof.
  intros Ha [Hne Hb]; split.
  - intros H; apply app_eq_nil in H as [_ H]; contradiction.
  - now apply Forall_app.
Qed.

Lemma isField_httpsURL (host user repo : gostring) :
  plainName host -> plainName user -> plainName repo ->
  isField (httpsURL host user repo).
Proof.
  intros Hh Hu Hr; unfold httpsURL.
  repeat (apply isField_app;
          [first [ now apply plainName_no_space
                 | repeat constructor ] |]).
  split; [discriminate | repeat constructor].
Qed.

Lemma isField_sshURL (host user repo : gostring) :
  plainName host -> plainName user -> plainName repo ->
  isField (sshURL host user repo).
Proof.
  intros Hh Hu Hr; unfold sshURL.
  repeat (apply isField_app;
          [first [ now apply plainName_no_space
                 | repeat constructor ] |]).
  split; [discriminate | repeat constructor].
Qed.

Lemma not_In_app {A : Type} (x : A) (a b : list A) :
  ~ In x a -> ~ In x b -> ~ In x (a ++ b).
Proof. intros Ha Hb Hin; apply in_app_or in Hin as [H | H]; auto. Qed.

(** The user and the repository in the path of a URL. *)
Lemma Split_user_repo (user repo : gostring) :
  plainName user -> plainName repo ->
  Split (user ++ go "/" ++ repo ++ go ".git") (go "/")
  = [user; repo ++ go ".git"].
Proof.
  intros Hu Hr.
  change (go "/") with [0x2F%N]; cbn [app].
  rewrite Split_at_rune by now apply plainName_no_slash.
  rewrite Split_no_rune; [reflexivity|].
  apply not_In_app; [now apply plainName_no_slash|].
  simpl; intros H.
  repeat (destruct H as [H | H]; [discriminate H|]); exact H.
Qed.

Lemma extractFromHTTPS_httpsURL (host user repo : gostring) :
  plainName host -> plainName user -> plainName repo ->
  extractFromHTTPS (httpsURL host user repo) = Some (user, repo).
Proof.
  intros Hh Hu Hr.
  unfold extractFromHTTPS, httpsURL, SplitAfter.
  rewrite genSplit_front by discriminate.
  rewrite genSplit_absent.
  - cbn [nth_error rev app].
    change (go "/" ++ user ++ go "/" ++ repo ++ go ".git")
      with (0x2F%N :: (user ++ go "/" ++ repo ++ go ".git")).
    rewrite Split_at_rune by now apply plainName_no_slash.
    rewrite Split_user_repo by assumption.
    cbn [nth_error].
    now rewrite TrimSuffix_app.
  - apply (Contains_lacking 0x3A%N); [simpl; tauto|].
    repeat (apply not_In_app;
            [first [ now apply plainName_no_colon
                   | simpl; intros H;
                     repeat (destruct H as [H | H]; [discriminate H|]);
                     exact H ] |]).
    simpl; intros H.
    repeat (destruct H as [H | H]; [discriminate H|]); exact H.
Qed.

(** X15: from an output whose first line names an https remote (the line
    may end the output or be followed by a newline and more),
    [ExtractUserRepoName] gives back the user and the repository of the
    URL, the repository without its ".git", and a nil error; the lines
    after the first are not looked at. *)
Theorem ExtractUserRepoName_https (out remote host user repo direction
    : gostring) :
  isField remote -> isField direction ->
  plainName host -> plainName user -> plainName repo ->
  startsWithLine out (remoteLine remote (httpsURL host user repo) direction) ->
  ExtractUserRepoName out = Some (user, repo, None).
Proof.
  intros Hremote Hdir Hh Hu Hr Hout.
  rewrite (ExtractUserRepoName_first_line out remote
             (httpsURL host user repo) direction)
    by (assumption || now apply isField_httpsURL).
  replace (HasPrefix (httpsURL host user repo) (go "https")) with true.
  - now rewrite extractFromHTTPS_httpsURL.
  - symmetry; unfold httpsURL.
    change (go "https://") with (go "https" ++ go "://").
    rewrite <- app_assoc; apply HasPrefix_app.
Qed.

(** The line alone, and the line followed by another. *)
Lemma ExtractUserRepoName_https_example :
  ExtractUserRepoName
    (remoteLine (go "origin")
       (httpsURL (go "github.com") (go "AntoninoAdornetto")
          (go "issue-summoner"))
       (go "(fetch)"))
  = Some (go "AntoninoAdornetto", go "issue-summoner", None)
  /\ ExtractUserRepoName
       (remoteLine (go "origin")
          (httpsURL (go "github.com") (go "AntoninoAdornetto")
             (go "issue-summoner"))
          (go "(fetch)")
        ++ 0x0A%N :: go "origin and the rest")
     = Some (go "AntoninoAdornetto", go "issue-summoner", None).
Proof.
  split.
  - apply (ExtractUserRepoName_https _ (go "origin") (go "github.com")
             (go "AntoninoAdornetto") (go "issue-summoner") (go "(fetch)"));
      [ (split; [discriminate | repeat constructor]) | (split; [discriminate | repeat constructor]) | (repeat constructor; discriminate) | (repeat constructor; discriminate) | (repeat constructor; discriminate) | left; reflexivity ].
  - apply (ExtractUserRepoName_https _ (go "origin") (go "github.com")
             (go "AntoninoAdornetto") (go "issue-summoner") (go "(fetch)"));
      [ (split; [discriminate | repeat constructor]) | (split; [discriminate | repeat constructor]) | (repeat constructor; discriminate) | (repeat constructor; discriminate) | (repeat constructor; discriminate)
      | right; exists (go "origin and the rest"); reflexivity ].
Defined.

Lemma extractFromSSH_sshURL (host user repo : gostring) :
  plainName host -> plainName user -> plainName repo ->
  extractFromSSH (sshURL host user repo) = Some (user, repo).
Proof.
  intros Hh Hu Hr.
  unfold extractFromSSH, sshURL, SplitAfter.
  change (go ":" ++ user ++ go "/" ++ repo ++ go ".git")
    with (0x3A%N :: (user ++ go "/" ++ repo ++ go ".git")).
  rewrite app_assoc.
  change (go ":") with [0x3A%N].
  rewrite genSplit_rune.
  - rewrite genSplit_absent.
    + cbn [nth_error rev app].
      rewrite Split_user_repo by assumption.
      cbn [nth_error].
      now rewrite TrimSuffix_app.
    + apply (Contains_lacking 0x3A%N); [now left|].
      repeat (apply not_In_app;
              [first [ now apply plainName_no_colon
                     | simpl; intros H;
                       repeat (destruct H as [H | H]; [discriminate H|]);
                       exact H ] |]).
      simpl; intros H.
      repeat (destruct H as [H | H]; [discriminate H|]); exact H.
  - apply not_In_app; [|now apply plainName_no_colon].
    simpl; intros H.
    repeat (destruct H as [H | H]; [discriminate H|]); exact H.
Qed.

(** X16: from an output whose first line names an ssh remote (the line may
    end the output or be followed by a newline and more),
    [ExtractUserRepoName] gives back the user and the repository that
    follow the colon, the repository without its ".git", and a nil error. *)
Theorem ExtractUserRepoName_ssh (out remote host user repo direction
    : gostring) :
  isField remote -> isField direction ->
  plainName host -> plainName user -> plainName repo ->
  startsWithLine out (remoteLine remote (sshURL host user repo) direction) ->
  ExtractUserRepoName out = Some (user, repo, None).
Proof.
  intros Hremote Hdir Hh Hu Hr Hout.
  rewrite (ExtractUserRepoName_first_line out remote
             (sshURL host user repo) direction)
    by (assumption || now apply isField_sshURL).
  replace (HasPrefix (sshURL host user repo) (go "https")) with false.
  - replace (HasPrefix (sshURL host user repo) (go "git")) with true.
    + now rewrite extractFromSSH_sshURL.
    + symmetry; unfold sshURL.
      change (go "git@") with (go "git" ++ go "@").
      rewrite <- app_assoc; apply HasPrefix_app.
  - symmetry; unfold sshURL, HasPrefix; simpl.
    apply andb_false_r.
Qed.

(** The line alone, and the line followed by a newline. *)
Lemma ExtractUserRepoName_ssh_example :
  ExtractUserRepoName
    (remoteLine (go "origin")
       (sshURL (go "github.com") (go "AntoninoAdornetto")
          (go "issue-summoner"))
       (go "(fetch)"))
  = Some (go "AntoninoAdornetto", go "issue-summoner", None)
  /\ ExtractUserRepoName
       (remoteLine (go "origin")
          (sshURL (go "github.com") (go "AntoninoAdornetto")
             (go "issue-summoner"))
          (go "(fetch)")
        ++ 0x0A%N :: [])
     = Some (go "AntoninoAdornetto", go "issue-summoner", None).
Proof.
  split.
  - apply (ExtractUserRepoName_ssh _ (go "origin") (go "github.com")
             (go "AntoninoAdornetto") (go "issue-summoner") (go "(fetch)"));
      [ (split; [discriminate | repeat constructor]) | (split; [discriminate | repeat constructor]) | (repeat constructor; discriminate) | (repeat constructor; discriminate) | (repeat constructor; discriminate) | left; reflexivity ].
  - apply (ExtractUserRepoName_ssh _ (go "origin") (go "github.com")
             (go "AntoninoAdornetto") (go "issue-summoner") (go "(fetch)"));
      [ (split; [discriminate | repeat constructor]) | (split; [discriminate | repeat constructor]) | (repeat constructor; discriminate) | (repeat constructor; discriminate) | (repeat constructor; discriminate) | right; exists []; reflexivity ].
Defined.

Lemma genSplit_first_piece (P : rune -> Prop) (sep : gostring) (s : gostring) :
  forall (cur : gostring) (skip : nat),
    Forall P cur -> Forall P s ->
    exists h tl, genSplit sep false cur skip s = h :: tl /\ Forall P h.
Proof.
  induction s as [|r s IH]; intros cur skip Hcur Hs; simpl.
  - exists (rev cur), []; split; [reflexivity | now apply Forall_rev].
  - inversion Hs as [|? ? Hr Hs']; subst.
    destruct skip as [|k]; [|now apply IH].
    destruct (HasPrefix (r :: s) sep).
    + eexists _, _; split; [reflexivity|].
      rewrite app_nil_r; now apply Forall_rev.
    + apply IH; [now constructor | exact Hs'].
Qed.

Lemma fieldsFrom_blank (s : gostring) :
  Forall (fun r => IsSpace r = true) s -> fieldsFrom [] s = [].
Proof.
  induction 1 as [|r s Hr _ IH]; simpl; [reflexivity|].
  now rewrite Hr.
Qed.

(** X17: an output that is not empty but holds white space only (a lone
    newline, say) makes [ExtractUserRepoName] panic: the first line has no
    field, and the error message for a line with fewer than two fields is
    built from [fields[0]]. *)
Theorem ExtractUserRepoName_blank_panics (out : gostring) :
  out <> [] ->
  Forall (fun r => IsSpace r = true) out ->
  ExtractUserRepoName out = None.
Proof.
  intros Hne Hblank.
  unfold ExtractUserRepoName, Split.
  destruct out as [|r out]; [contradiction|].
  cbn [length Nat.eqb].
  destruct (genSplit_first_piece (fun r => IsSpace r = true) [0x0A%N]
              (r :: out) [] 0 (Forall_nil _) Hblank) as (h & tl & -> & Hh).
  cbn [nth_error].
  unfold Fields; now rewrite fieldsFrom_blank.
Qed.

Lemma ExtractUserRepoName_blank_panics_newline :
  ExtractUserRepoName [0x0A%N] = None.
Proof.
  apply (ExtractUserRepoName_blank_panics [0x0A%N]).
  - discriminate.
  - repeat constructor.
Defined.

(** X18: an output whose first line is a single field (the line may end
    the output or be followed by a newline and more) is answered by the
    error that names that field, with empty user and repository. *)
Theorem ExtractUserRepoName_one_field (out f : gostring) :
  isField f ->
  startsWithLine out f ->
  ExtractUserRepoName out
  = Some ([], [],
          Some (go "expected to receive the origin and url but got " ++ f)).
Proof.
  intros Hf Hout.
  unfold ExtractUserRepoName.
  rewrite (startsWithLine_length _ _ Hout) by apply Hf.
  destruct (Split_first_line _ _ Hout) as [rest ->];
    [now apply (isField_no_space f 0x0A%N Hf)|].
  cbn [nth_error].
  rewrite Fields_field by exact Hf.
  reflexivity.
Qed.

(** The field alone, and the field followed by a newline. *)
Lemma ExtractUserRepoName_one_field_example :
  ExtractUserRepoName (go "origin")
  = Some ([], [],
          Some (go "expected to receive the origin and url but got origin"))
  /\ ExtractUserRepoName (go "origin" ++ 0x0A%N :: [])
     = Some ([], [],
             Some (go "expected to receive the origin and url but got origin")).
Proof.
  split.
  - apply (ExtractUserRepoName_one_field _ (go "origin"));
      [ (split; [discriminate | repeat constructor]) | left; reflexivity ].
  - apply (ExtractUserRepoName_one_field _ (go "origin"));
      [ (split; [discriminate | repeat constructor]) | right; exists []; reflexivity ].
Defined.

(** The pieces of a split at a rune: one more than the rune occurs. *)
Lemma genSplit_rune_length (x : rune) (s : gostring) :
  forall cur : gostring,
    length (genSplit [x] false cur 0 s)
    = 1 + count_occ N.eq_dec s x.
Proof.
  induction s as [|r s IH]; intros cur; [reflexivity|].
  cbn [genSplit count_occ].
  assert (Hr : HasPrefix (r :: s) [x] = N.eqb r x).
  { unfold HasPrefix; simpl; now rewrite !andb_true_r. }
  rewrite Hr.
  destruct (N.eq_dec r x) as [-> | Hne].
  - rewrite N.eqb_refl; simpl; now rewrite IH.
  - apply N.eqb_neq in Hne; rewrite Hne; apply IH.
Qed.

(** A string that occurs in another has no more of a rune than it. *)
Lemma Contains_count (x : rune) (s sub : gostring) :
  Contains s sub = true ->
  count_occ N.eq_dec sub x <= count_occ N.eq_dec s x.
Proof.
  intros H; apply Contains_occurs in H as (a & b & ->).
  rewrite !count_occ_app.
  apply Nat.le_trans with (count_occ N.eq_dec sub x + count_occ N.eq_dec b x);
    [apply Nat.le_add_r | apply Nat.le_add_l].
Qed.

(** X19: an https URL with fewer than two slashes after the scheme (no
    user, or no repository) makes [ExtractUserRepoName] panic: the path
    splits into fewer than three parts, and [extractFromHTTPS] reads
    [sep[1]] and [sep[2]] without a check.  The line with the URL may end
    the output or be followed by a newline and more. *)
Theorem ExtractUserRepoName_https_short_panics (out remote path direction
    : gostring) :
  isField remote -> isField direction ->
  Forall (fun r => IsSpace r = false) path ->
  count_occ N.eq_dec path 0x2F%N < 2 ->
  startsWithLine out (remoteLine remote (go "https://" ++ path) direction) ->
  ExtractUserRepoName out = None.
Proof.
  intros Hremote Hdir Hpath Hcount Hout.
  rewrite (ExtractUserRepoName_first_line out remote (go "https://" ++ path)
             direction); try assumption.
  - change (go "https://") with (go "https" ++ go "://").
    rewrite <- app_assoc, HasPrefix_app.
    change (go "https" ++ go "://" ++ path) with (go "https://" ++ path).
    unfold extractFromHTTPS, SplitAfter.
    rewrite genSplit_front by discriminate.
    rewrite genSplit_absent.
    + assert (Hlen : length (Split path (go "/")) < 3).
      { unfold Split; change (go "/") with [0x2F%N].
        rewrite genSplit_rune_length; lia. }
      cbn [nth_error rev app].
      destruct (Split path (go "/")) as [|a [|b [|c sep]]]; simpl in Hlen;
        try reflexivity.
      lia.
    + destruct (Contains path (go "https://")) eqn:E; [|reflexivity].
      apply (Contains_count 0x2F%N) in E.
      change (count_occ N.eq_dec (go "https://") 0x2F%N) with 2 in E.
      lia.
  - split; [discriminate|].
    apply Forall_app; split; [repeat constructor | exact Hpath].
Qed.

(** A URL with a port and a user but no repository, alone on its line and
    followed by a newline. *)
Lemma ExtractUserRepoName_https_short_panics_example :
  ExtractUserRepoName
    (remoteLine (go "origin") (go "https://" ++ go "example.com:8080/user")
       (go "(fetch)"))
  = None
  /\ ExtractUserRepoName
       (remoteLine (go "origin") (go "https://" ++ go "example.com:8080/user")
          (go "(fetch)")
        ++ 0x0A%N :: [])
     = None.
Proof.
  split.
  - apply (ExtractUserRepoName_https_short_panics _ (go "origin")
             (go "example.com:8080/user") (go "(fetch)"));
      [ (split; [discriminate | repeat constructor]) | (split; [discriminate | repeat constructor]) | repeat constructor | simpl; lia | left; reflexivity ].
  - apply (ExtractUserRepoName_https_short_panics _ (go "origin")
             (go "example.com:8080/user") (go "(fetch)"));
      [ (split; [discriminate | repeat constructor]) | (split; [discriminate | repeat constructor]) | repeat constructor | simpl; lia
      | right; exists []; reflexivity ].
Defined.

End Remotes.

Section RepoName.

(** Every piece of a split is a stretch of the string that was split. *)
Lemma genSplit_pieces (sep : gostring) (s : gostring) :
  forall (cur : gostring) (skip : nat),
    skip = 0 \/ cur = [] ->
    Forall (fun piece => exists a b, rev cur ++ s = a ++ piece ++ b)
      (genSplit sep false cur skip s).
Proof.
  induction s as [|r s IH]; intros cur skip Hinv; simpl.
  - constructor; [|constructor].
    exists [], []; now rewrite !app_nil_r.
  - destruct skip as [|k].
    + destruct (HasPrefix (r :: s) sep).
      * constructor.
        -- exists [], (r :: s); now rewrite app_nil_r.
        -- specialize (IH [] (length sep - 1) (or_intror eq_refl)).
           eapply Forall_impl; [|exact IH].
           intros piece (a & b & Hab); simpl in Hab.
           exists (rev cur ++ r :: a), b.
           rewrite Hab, <- app_assoc; reflexivity.
      * specialize (IH (r :: cur) 0 (or_introl eq_refl)).
        eapply Forall_impl; [|exact IH].
        intros piece (a & b & Hab); simpl in Hab.
        exists a, b; now rewrite <- Hab, <- app_assoc.
    + destruct Hinv as [Hz | ->]; [discriminate|].
      specialize (IH [] k (or_intror eq_refl)).
      eapply Forall_impl; [|exact IH].
      intros piece (a & b & Hab); simpl in Hab.
      exists (r :: a), b; simpl; now rewrite Hab.
Qed.

Lemma repoNameOf_no_push (lines : list gostring) :
  Forall (fun line => Contains line (go "(push)") = false) lines ->
  repoNameOf lines = [].
Proof.
  induction 1 as [|line lines Hline _ IH]; simpl; [reflexivity|].
  now rewrite Hline.
Qed.

(** X20: when "(push)" occurs nowhere in the output of git remote,
    [extractRepoName] returns the empty string. *)
Theorem extractRepoName_no_push (origins : gostring) :
  Contains origins (go "(push)") = false ->
  extractRepoName origins = [].
Proof.
  intros Hno.
  unfold extractRepoName, Split.
  apply repoNameOf_no_push.
  eapply Forall_impl; [|apply genSplit_pieces; now left].
  intros piece (a & b & Hab); simpl in Hab.
  destruct (Contains piece (go "(push)")) eqn:E; [|reflexivity].
  apply Contains_occurs in E as (a' & b' & ->).
  assert (Hyes : Contains origins (go "(push)") = true).
  { apply Contains_occurs.
    exists (a ++ a'), (b' ++ b).
    rewrite Hab, <- !app_assoc; reflexivity. }
  congruence.
Qed.

Lemma extractRepoName_no_push_example :
  extractRepoName
    (remoteLine (go "origin")
       (httpsURL (go "github.com") (go "AntoninoAdornetto")
          (go "issue-summoner"))
       (go "(fetch)"))
  = [].
Proof.
  apply (extractRepoName_no_push
           (remoteLine (go "origin")
              (httpsURL (go "github.com") (go "AntoninoAdornetto")
                 (go "issue-summoner"))
              (go "(fetch)"))).
  reflexivity.
Defined.

(** The last piece of a split at a rune is what follows its last
    occurrence. *)
Lemma genSplit_rune_last (x : rune) (b : gostring) :
  ~ In x b ->
  forall (a cur : gostring),
    exists init, init <> []
                 /\ genSplit [x] false cur 0 (a ++ x :: b) = init ++ [b].
Proof.
  intros Hb.
  induction a as [|r a IH]; intros cur.
  - exists [rev cur]; split; [discriminate|].
    rewrite (genSplit_rune x false [] b cur) by (intros []).
    rewrite genSplit_absent by now apply Contains_single.
    simpl; now rewrite !app_nil_r.
  - cbn [genSplit app].
    destruct (HasPrefix (r :: a ++ x :: b) [x]).
    + change (length [x] - 1) with 0.
      destruct (IH []) as (init & _ & ->).
      exists ((rev cur ++ []) :: init); split; [discriminate | reflexivity].
    + apply IH.
Qed.

Lemma repoNameOf_skip (skipped lines : list gostring) :
  Forall (fun line => Contains line (go "(push)") = false) skipped ->
  repoNameOf (skipped ++ lines) = repoNameOf lines.
Proof.
  induction 1 as [|line skipped Hline _ IH]; simpl; [reflexivity|].
  now rewrite Hline.
Qed.

(** X21: [extractRepoName] finds the repository in the output of git
    remote: it passes over the lines without "(push)" and, on the first
    push line, returns what follows the last slash of the URL, without its
    ".git"; the lines after that one do not matter. *)
Theorem extractRepoName_push_line (skipped rest : list gostring)
    (remote base repo : gostring) :
  Forall (fun line => ~ In 0x0A%N line
                      /\ Contains line (go "(push)") = false) skipped ->
  Forall (fun line => ~ In 0x0A%N line) rest ->
  isField remote ->
  Forall (fun r => IsSpace r = false) base ->
  Forall (fun r => IsSpace r = false) repo ->
  ~ In 0x2F%N repo ->
  extractRepoName
    (Join (skipped
           ++ remoteLine remote (base ++ go "/" ++ repo ++ go ".git")
                (go "(push)")
           :: rest) [0x0A%N])
  = repo.
Proof.
  intros Hskipped Hrest Hremote Hbase Hrepo Hslash.
  set (url := base ++ go "/" ++ repo ++ go ".git").
  assert (Hurl : isField url).
  { unfold url; apply isField_app; [exact Hbase|].
    apply isField_app; [repeat constructor|].
    apply isField_app; [exact Hrepo|].
    split; [discriminate | repeat constructor]. }
  assert (Hpush : isField (go "(push)"))
    by (split; [discriminate | repeat constructor]).
  assert (Hlines : Forall (fun line => ~ In 0x0A%N line)
                     (skipped ++ remoteLine remote url (go "(push)") :: rest)).
  { apply Forall_app; split.
    - eapply Forall_impl; [|exact Hskipped]; now intros line [H _].
    - constructor; [now apply remoteLine_one_line | exact Hrest]. }
  unfold extractRepoName.
  assert (Hsplit : Split
            (Join (skipped ++ remoteLine remote url (go "(push)") :: rest)
               [0x0A%N]) [0x0A%N]
          = skipped ++ remoteLine remote url (go "(push)") :: rest).
  { destruct skipped as [|l0 skipped]; simpl app in *;
      now apply Split_Join. }
  rewrite Hsplit, repoNameOf_skip
    by (eapply Forall_impl; [|exact Hskipped]; now intros line [_ H]).
  cbn [repoNameOf].
  assert (Hcontains : Contains (remoteLine remote url (go "(push)"))
                        (go "(push)") = true).
  { apply Contains_occurs.
    exists (remote ++ [0x09%N] ++ url ++ go " "), [].
    unfold remoteLine; now rewrite app_nil_r, <- !app_assoc. }
  rewrite Hcontains, Fields_remoteLine by assumption.
  cbn [length Nat.leb nth].
  unfold url, Split.
  change (go "/" ++ repo ++ go ".git") with (0x2F%N :: (repo ++ go ".git")).
  change (go "/") with [0x2F%N].
  destruct (genSplit_rune_last 0x2F%N (repo ++ go ".git")) with (a := base)
    (cur := @nil rune) as (init & Hne & Hparts).
  { apply not_In_app; [exact Hslash|].
    simpl; intros H.
    repeat (destruct H as [H | H]; [discriminate H|]); exact H. }
  unfold rune, gostring in *; rewrite Hparts.
  rewrite length_app; simpl length.
  replace (1 <? length init + 1) with true.
  - replace (length init + 1 - 1) with (length init) by lia.
    rewrite app_nth2, Nat.sub_diag by lia.
    simpl nth; apply TrimSuffix_app.
  - symmetry; apply Nat.ltb_lt.
    destruct init; [contradiction | simpl; lia].
Qed.

Lemma extractRepoName_push_line_example :
  extractRepoName
    (Join ([remoteLine (go "origin")
              (go "git@github.com:AntoninoAdornetto/issue-summoner.git")
              (go "(fetch)")]
           ++ remoteLine (go "origin")
                (go "git@github.com:AntoninoAdornetto"
                 ++ go "/" ++ go "issue-summoner" ++ go ".git")
                (go "(push)")
           :: [[]]) [0x0A%N])
  = go "issue-summoner".
Proof.
  apply (extractRepoName_push_line
           [remoteLine (go "origin")
              (go "git@github.com:AntoninoAdornetto/issue-summoner.git")
              (go "(fetch)")]
           [[]] (go "origin") (go "git@github.com:AntoninoAdornetto")
           (go "issue-summoner")).
  - repeat constructor.
    simpl; intros H.
    repeat (destruct H as [H | H]; [discriminate H|]); exact H.
  - repeat constructor; intros [].
  - split; [discriminate | repeat constructor].
  - repeat constructor.
  - repeat constructor.
  - simpl; intros H.
    repeat (destruct H as [H | H]; [discriminate H|]); exact H.
Defined.

End RepoName.

(** ** The classifier inside a block, and the states of a scan *)

Section ClassifierBlocks.

(** X22: on a MULTI_END line [extractBeforeSuffix] drops the last field
    when it is the prefix, and only that one: the result is that of
    [extractAfterPrefix] on the fields before it. *)
Theorem extractBeforeSuffix_drops_last (init : list gostring)
    (annotation prefix : gostring) :
  extractBeforeSuffix (init ++ [prefix]) annotation prefix
  = extractAfterPrefix init annotation prefix.
Proof.
  unfold extractBeforeSuffix.
  destruct (init ++ [prefix]) eqn:E; [now destruct init|].
  rewrite <- E, last_last, streqb_refl, length_app; simpl.
  replace (length init + 1 - 1) with (length init) by lia.
  now rewrite firstn_app, firstn_all, Nat.sub_diag, firstn_O, app_nil_r.
Qed.

Lemma multiLoop_no_match (c : Comment) (trimmedLine : gostring) :
  (forall en, In en (MultiLineEndPrefix c) ->
              HasSuffix trimmedLine en = false) ->
  forall (starts : list gostring) (i : nat),
    (forall st, In st starts -> HasPrefix trimmedLine st = false) ->
    i + length starts <= length (MultiLineEndPrefix c) ->
    multiLoop c trimmedLine starts i = Some (setLine c LINE_TYPE_SRC_CODE []).
Proof.
  intros Hends.
  induction starts as [|st starts IH]; intros i Hstarts Hlen; simpl in *;
    [reflexivity|].
  destruct (nth_error (MultiLineEndPrefix c) i) as [en|] eqn:En.
  - rewrite (Hstarts st) by now left.
    rewrite (Hends en) by (eapply nth_error_In; exact En).
    apply IH; [intros st' Hin; apply Hstarts; now right | lia].
  - apply nth_error_None in En; lia.
Qed.

Lemma singleLoop_no_match (trimmedLine : gostring) (prefixes : list gostring) :
  (forall s, In s prefixes -> HasPrefix trimmedLine s = false) ->
  singleLoop trimmedLine prefixes = None.
Proof.
  induction prefixes as [|p prefixes IH]; intros H; simpl; [reflexivity|].
  rewrite (H p) by now left.
  apply IH; intros s Hin; apply H; now right.
Qed.

(** X23: the classifier does not remember that a block is open: for a
    syntax in which every start prefix has its end prefix, and whatever the
    current line type, MULTI_START included, a line whose trimmed text
    neither starts nor ends with the active prefix, starts with no
    single-line and no start prefix and ends with no end prefix is
    classified anew: after the call the line type is SRC_CODE and the
    active prefix is empty. *)
Theorem SetLineTypeAndPrefix_forgets_block (c : Comment) (line : gostring) :
  length (MultiLineStartPrefix c) <= length (MultiLineEndPrefix c) ->
  HasPrefix (TrimLeftSpace line) (CurrentPrefix c) = false ->
  HasSuffix (TrimLeftSpace line) (CurrentPrefix c) = false ->
  (forall s, In s (SingleLinePrefix c) ->
             HasPrefix (TrimLeftSpace line) s = false) ->
  (forall st, In st (MultiLineStartPrefix c) ->
              HasPrefix (TrimLeftSpace line) st = false) ->
  (forall en, In en (MultiLineEndPrefix c) ->
              HasSuffix (TrimLeftSpace line) en = false) ->
  exists c',
    SetLineTypeAndPrefix c line = Some c'
    /\ CurrentLineType c' = LINE_TYPE_SRC_CODE
    /\ CurrentPrefix c' = []
    /\ c' = setLine c LINE_TYPE_SRC_CODE [].
Proof.
  intros Hlen Hp Hs Hsingle Hstarts Hends.
  exists (setLine c LINE_TYPE_SRC_CODE []).
  split; [|repeat split].
  unfold SetLineTypeAndPrefix.
  rewrite Hp, Hs, andb_false_r.
  rewrite singleLoop_no_match by exact Hsingle.
  now apply multiLoop_no_match.
Qed.

Lemma SetLineTypeAndPrefix_forgets_block_example :
  CurrentLineType cStyleStart = LINE_TYPE_MULTI_START
  /\ exists c',
       SetLineTypeAndPrefix cStyleStart (go "   * the block goes on")
       = Some c'
       /\ CurrentLineType c' = LINE_TYPE_SRC_CODE
       /\ CurrentPrefix c' = []
       /\ c' = setLine cStyleStart LINE_TYPE_SRC_CODE [].
Proof.
  split; [reflexivity|].
  apply (SetLineTypeAndPrefix_forgets_block cStyleStart
           (go "   * the block goes on")).
  - simpl; lia.
  - reflexivity.
  - reflexivity.
  - intros s [<- | []]; reflexivity.
  - intros s [<- | []]; reflexivity.
  - intros s [<- | []]; reflexivity.
Defined.

Lemma SetLineTypeAndPrefix_single_slice (c c' : Comment) (line : gostring) :
  SetLineTypeAndPrefix c line = Some c' ->
  SingleLinePrefix c' = SingleLinePrefix c.
Proof.
  intros H.
  destruct (SetLineTypeAndPrefix_cases _ _ _ H)
    as [(-> & _ & _)
       | [(s & _ & _ & ->)
         | [(st & _ & _ & _ & ->)
           | [(en & _ & _ & ->) | (-> & _ & _)]]]];
    reflexivity.
Qed.

Lemma reachable_slices (ext : gostring) (c : Comment) :
  reachable ext c ->
  SingleLinePrefix c = SingleLinePrefix (CommentPrefixes ext)
  /\ MultiLineStartPrefix c = MultiLineStartPrefix (CommentPrefixes ext)
  /\ MultiLineEndPrefix c = MultiLineEndPrefix (CommentPrefixes ext).
Proof.
  induction 1 as [|c line annotation content found c' _ IH Hstep].
  - now repeat split.
  - unfold ExtractCommentContent in Hstep.
    destruct (SetLineTypeAndPrefix c _) as [c1|] eqn:E; [|discriminate].
    destruct (if streqb _ _ then _ else _) as [content1 found1].
    injection Hstep as _ _ <-.
    pose proof (SetLineTypeAndPrefix_single_slice _ _ _ E) as ->.
    apply SetLineTypeAndPrefix_slices in E as [-> ->]; exact IH.
Qed.

(** X24: throughout the scan of a file, whatever its extension and the
    lines read, the classifier keeps the syntax it started with: every
    start prefix has its end prefix, and no prefix is the empty string. *)
Theorem reachable_well_formed (ext : gostring) (c : Comment) :
  reachable ext c ->
  length (MultiLineStartPrefix c) = length (MultiLineEndPrefix c)
  /\ Forall (fun p => p <> []) (SingleLinePrefix c)
  /\ Forall (fun p => p <> []) (MultiLineStartPrefix c)
  /\ Forall (fun p => p <> []) (MultiLineEndPrefix c).
Proof.
  intros Hreach.
  destruct (reachable_slices ext c Hreach) as (-> & -> & ->).
  unfold CommentPrefixes.
  destruct (existsb _ _);
    [|destruct (streqb ext fileExtPython);
      [|destruct (streqb ext fileExtMarkdown)]];
    (split; [reflexivity|]); repeat split;
    repeat constructor; discriminate.
Qed.

Lemma reachable_well_formed_example :
  length (MultiLineStartPrefix cStyleStart)
  = length (MultiLineEndPrefix cStyleStart)
  /\ Forall (fun p => p <> []) (SingleLinePrefix cStyleStart)
  /\ Forall (fun p => p <> []) (MultiLineStartPrefix cStyleStart)
  /\ Forall (fun p => p <> []) (MultiLineEndPrefix cStyleStart).
Proof.
  apply (reachable_well_formed fileExtGo cStyleStart).
  apply (reachable_line fileExtGo (CommentPrefixes fileExtGo)
           (go "/* @TODO refactor") TODO (go "refactor") true cStyleStart).
  - apply reachable_fresh.
  - reflexivity.
Defined.

End ClassifierBlocks.
